(** * psy.py: a one-membrane P-system interpreter

    A shallow embedding of [src/psy.py] and the verification of its
    specification.  The program keeps the contents of the cell in a
    [collections.Counter] and rewrites it with symport/antiport rules, each a
    pair of Counters (outgoing, incoming).

    Layout: the Counter operations that psy.py calls ([Counter]), the
    multiset operations and the step as the specification words them
    ([Spec]), the program itself ([Psy]), the relations between the two
    ([Sim]), the specification's scenarios ([Scenario]), and then the
    theorems.  The loops of [run] need not end, so the functions below take
    a fuel and say whether they came to their end. *)

From Stdlib Require Import ZArith Ascii String Lia.
From stdpp Require Import base gmap sets list strings.

Open Scope Z_scope.

(** A Counter is a dict from symbols to Python integers.  Python integers are
    unbounded, hence [Z]; a Counter may hold zero and negative counts, and
    the operations below say where they are dropped.  Keys are the characters
    psy.py puts in: one-character strings, here [ascii] read as the code
    points 0..255. *)
Abbreviation Counter := (gmap ascii Z).

(** ** collections.Counter, the part psy.py uses *)
Module Counter.

(** [c[k]]: a missing key reads as 0 ([Counter.__missing__]). *)
Definition getitem (c : Counter) (k : ascii) : Z := default 0 (c !! k).

(** [Counter(iterable)]: every element adds one to its count. *)
Definition of_list (l : list ascii) : Counter :=
  foldl (fun c k => <[k := getitem c k + 1]> c) ∅ l.

(** [_keep_positive]: delete the entries whose count is not above zero. *)
Definition keep_positive (c : Counter) : Counter :=
  filter (fun kv => 0 < kv.2) c.

(** [a - b] ([__sub__]): a new Counter; for a key of [a] the difference when
    it is positive, for a key of [b] alone the negated count when that count
    is negative. *)
Definition sub (a b : Counter) : Counter :=
  merge (fun x y =>
           match x, y with
           | Some n, _ => let newcount := n - default 0 y in
                          if decide (0 < newcount) then Some newcount else None
           | None, Some m => if decide (m < 0) then Some (0 - m) else None
           | None, None => None
           end) a b.

(** [a + b] ([__add__]): a new Counter; for a key of [a] the sum when it is
    positive, for a key of [b] alone the count when it is positive. *)
Definition add (a b : Counter) : Counter :=
  merge (fun x y =>
           match x, y with
           | Some n, _ => let newcount := n + default 0 y in
                          if decide (0 < newcount) then Some newcount else None
           | None, Some m => if decide (0 < m) then Some m else None
           | None, None => None
           end) a b.

(** [a -= b] ([__isub__]): [a[elem] -= count] for every item of [b], then
    [_keep_positive]. *)
Definition isub (a b : Counter) : Counter :=
  keep_positive
    (merge (fun x y =>
              match y with
              | Some count => Some (default 0 x - count)
              | None => x
              end) a b).

(** [a += b] ([__iadd__]): [a[elem] += count] for every item of [b], then
    [_keep_positive]. *)
Definition iadd (a b : Counter) : Counter :=
  keep_positive
    (merge (fun x y =>
              match y with
              | Some count => Some (default 0 x + count)
              | None => x
              end) a b).

(** [a == b] ([__eq__], Python 3.10 and later): the counts agree on every key
    of either Counter, a missing key counting as zero.  On Counters without
    zero entries, which are the only ones psy.py builds, this is dict
    equality (lemma [eq_positive] below), the test of earlier versions. *)
Definition eq (a b : Counter) : bool :=
  bool_decide (set_Forall (fun e => getitem a e = getitem b e) (dom a ∪ dom b)).

(** The Counters whose every entry is above zero: what [Counter(iterable)]
    and all the arithmetic above produce. *)
Definition positive (c : Counter) : Prop := map_Forall (fun _ n => 0 < n) c.

(** [bool(c)]: a Counter is true when the dict has an entry. *)
Definition truth (c : Counter) : bool := negb (bool_decide (c = ∅)).

(** [c.copy()]: an independent Counter with the same items. *)
Definition copy (c : Counter) : Counter := c.

(** [c.elements()]: every key repeated count times; nothing for a count below
    one.  The keys come in the order of the map, which is not the insertion
    order of a Python dict; the two agree on Counters of at most one key.
    Python's [itertools.repeat] refuses a count of 2^63 or more; the list
    here has no such limit. *)
Definition elements (c : Counter) : list ascii :=
  flat_map (fun kv => replicate (Z.to_nat kv.2) kv.1) (map_to_list c).

(** [repr(c)], as psy.py overrides it: ["".join(self.elements())]. *)
Definition repr (c : Counter) : string := string_of_list_ascii (elements c).

End Counter.

(** ** The multiset operations in the specification's words *)
Module Spec.

(** A Multiset maps symbols to non-negative counts, absent symbols counting
    as zero. *)
Definition Multiset (m : Counter) : Prop := map_Forall (fun _ n => 0 <= n) m.

(** Two mappings denote the same multiset when all counts agree. *)
Definition same (a b : Counter) : Prop :=
  forall k, Counter.getitem a k = Counter.getitem b k.

(** [contains(a, b)]: for every symbol, [a[symbol] >= b[symbol]]. *)
Definition contains (a b : Counter) : bool :=
  bool_decide
    (set_Forall (fun k => Counter.getitem a k >= Counter.getitem b k) (dom a ∪ dom b)).

(** [subtract(a, b)]: [a[symbol] - b[symbol]] for each symbol. *)
Definition subtract (a b : Counter) : Counter :=
  merge (fun x y =>
           match x, y with
           | None, None => None
           | _, _ => Some (default 0 x - default 0 y)
           end) a b.

(** [add(a, b)]: [a[symbol] + b[symbol]] for each symbol. *)
Definition add (a b : Counter) : Counter :=
  merge (fun x y =>
           match x, y with
           | None, None => None
           | _, _ => Some (default 0 x + default 0 y)
           end) a b.

(** [is_empty(a)]: every count is 0. *)
Definition is_empty (a : Counter) : bool :=
  bool_decide (map_Forall (fun _ n => n = 0) a).

(** Step 2a of the StepEngine for one rule: while [contains(state, out)],
    subtract [out], add [in] to [pending], set [fired].  [fuel] bounds the
    iterations; the flag tells whether the loop came to its end. *)
Fixpoint exhaust (fuel : nat) (out inc : Counter)
    (state pending : Counter) (fired : bool) : Counter * Counter * bool * bool :=
  if contains state out then
    match fuel with
    | O => (state, pending, fired, false)
    | S fuel' => exhaust fuel' out inc (subtract state out) (add pending inc) true
    end
  else (state, pending, fired, true).

(** Step 2: the rules in order. *)
Fixpoint scan (fuel : nat) (rules : list (Counter * Counter))
    (state pending : Counter) (fired : bool) : Counter * Counter * bool * bool :=
  match rules with
  | [] => (state, pending, fired, true)
  | (out, inc) :: rest =>
      let '(state1, pending1, fired1, finished) :=
        exhaust fuel out inc state pending fired in
      if finished then scan fuel rest state1 pending1 fired1
      else (state1, pending1, fired1, false)
  end.

(** Steps 1 to 3: [pending] starts empty, [fired] false; the new state is
    [add(state, pending)]. *)
Definition step (fuel : nat) (rules : list (Counter * Counter))
    (state : Counter) : Counter * bool * bool :=
  let '(state1, pending, fired, finished) := scan fuel rules state ∅ false in
  (add state1 pending, fired, finished).

End Spec.

(** ** psy.py *)
Module Psy.

(** A rule is a pair of Counters of lowercase symbols (outgoing, incoming). *)
Abbreviation Rule := (Counter * Counter)%type.

(** The options [optparse] hands over: [-v] and [-l]. *)
Record Options := { verbose : bool; detect_loops : bool }.

(** The exceptions that reach [__main__]. *)
Inductive exn :=
| IncreasingSequence (prev state : Counter)
    (* "Found increasing sequence: {}->{}" *)
| InvalidRule
    (* "Rules without outgoing component are invalid." *)
| OSError (fname : string).
    (* [open] on a file that is not there *)

(** What the program writes on stdout, one constructor per [print]. *)
Inductive event :=
| PrintState (state : Counter)               (* print(state) *)
| PrintRule (outgoing incoming : Counter)    (* print(" ", outgoing, "->", incoming) *)
| PrintError (e : exn).                      (* print(e) *)

(** How a run stands when the fuel is spent or the function has left:
    returned, raised, or still running with the cell as it is then. *)
Inductive outcome :=
| Returned (state : Counter)
| Raised (e : exn)
| Unfinished (state : Counter).

(** A run as seen from outside: how it ended, the passes of the outer loop
    completed, and the lines printed. *)
Record result := { ended : outcome; steps : nat; printed : list event }.

(** The variables of one pass of the outer [while True] (lines 45-57). *)
Record locals := {
  state : Counter;
  to_add : Counter;
  end_ : bool;
  stdout : list event
}.

Definition SYMBOLS : list ascii := list_ascii_of_string "abcde".

(** [print] under [if opts.verbose].  The model keeps the value handed to
    [print]; writing it out is [Counter.repr] (line 33), which Python cannot
    do for a count of 2^63 or more (OverflowError) or one too large for the
    memory.  The same holds for the message built on line 62.  The runs
    described below are those whose lines can be written out. *)
Definition print_if (on : bool) (e : event) (out : list event) : list event :=
  if on then out ++ [e] else out.

(** The test of lines 49 and 60: [state - other + other == state]. *)
Definition dominates (state other : Counter) : bool :=
  Counter.eq (Counter.add (Counter.sub state other) other) state.

(** Lines 48-56, the inner [while True] for one rule.  Every iteration takes
    one unit of fuel; the flag is true when the loop reached its [break]. *)
Fixpoint apply_rule (fuel : nat) (opts : Options) (outgoing incoming : Counter)
    (l : locals) : locals * bool :=
  if dominates (state l) outgoing then
    match fuel with
    | O => (l, false)
    | S fuel' =>
        apply_rule fuel' opts outgoing incoming
          {| state := Counter.isub (state l) outgoing;
             to_add := Counter.iadd (to_add l) incoming;
             end_ := false;
             stdout := print_if (verbose opts) (PrintRule outgoing incoming) (stdout l) |}
    end
  else (l, true).

(** Lines 47-56, [for outgoing, incoming in rules]. *)
Fixpoint for_rules (fuel : nat) (opts : Options) (rules : list Rule)
    (l : locals) : locals * bool :=
  match rules with
  | [] => (l, true)
  | (outgoing, incoming) :: rest =>
      let (l1, finished) := apply_rule fuel opts outgoing incoming l in
      if finished then for_rules fuel opts rest l1 else (l1, false)
  end.

(** Lines 43-57, one pass: the state after [state += to_add], the value of
    [end], the output so far, and whether the pass was completed. *)
Definition step (fuel : nat) (opts : Options) (rules : list Rule)
    (state0 : Counter) (out : list event) : locals * bool :=
  let (l, finished) :=
    for_rules fuel opts rules
      {| state := state0; to_add := ∅; end_ := true;
         stdout := print_if (verbose opts) (PrintState state0) out |} in
  if finished then
    ({| state := Counter.iadd (state l) (to_add l); to_add := to_add l;
        end_ := end_ l; stdout := stdout l |}, true)
  else (l, false).

(** Lines 42-65, the outer [while True].  [previous_states] is bound only
    under [-l]; without it the list stays as it was given. *)
Fixpoint run_loop (fuel : nat) (opts : Options) (rules : list Rule)
    (state0 : Counter) (previous_states : list Counter)
    (n : nat) (out : list event) : result :=
  match fuel with
  | O => {| ended := Unfinished state0; steps := n; printed := out |}
  | S fuel' =>
      let (l, finished) := step fuel' opts rules state0 out in
      if finished then
        match (if detect_loops opts
               then find (fun prev => dominates (state l) prev) previous_states
               else None) with
        | Some prev =>
            {| ended := Raised (IncreasingSequence prev (state l));
               steps := S n; printed := stdout l |}
        | None =>
            let previous_states' :=
              if detect_loops opts
              then previous_states ++ [Counter.copy (state l)]
              else previous_states in
            if end_ l then
              {| ended := Returned (state l); steps := S n; printed := stdout l |}
            else run_loop fuel' opts rules (state l) previous_states' (S n) (stdout l)
        end
      else {| ended := Unfinished (state l); steps := n; printed := stdout l |}
  end.

(** [run(rules, state, opts)]. *)
Definition run (fuel : nat) (rules : list Rule) (state0 : Counter)
    (opts : Options) : result :=
  run_loop fuel opts rules state0
    (if detect_loops opts then [Counter.copy state0] else []) 0 [].

(** *** Reading the program and the cell *)

(** [str.isspace] on the code points 0..255. *)
Definition isspace (c : ascii) : bool :=
  let n := nat_of_ascii c in
  ((9 <=? n) && (n <=? 13) || (28 <=? n) && (n <=? 32)
   || (n =? 133) || (n =? 160))%nat.

(** [str.upper] and [str.lower] on the ASCII letters, all they are applied
    to here ([SYMBOLS.upper()], and [symbol.lower()] for a symbol found in
    it). *)
Definition upper (c : ascii) : ascii :=
  let n := nat_of_ascii c in
  if ((97 <=? n) && (n <=? 122))%nat then ascii_of_nat (n - 32) else c.

Definition lower (c : ascii) : ascii :=
  let n := nat_of_ascii c in
  if ((65 <=? n) && (n <=? 90))%nat then ascii_of_nat (n + 32) else c.

(** Iterating over an open text file: the lines, each with its newline.  The
    text is what text mode hands over, line ends already turned into
    ["\n"]. *)
Fixpoint readlines (text : list ascii) : list (list ascii) :=
  match text with
  | [] => []
  | c :: rest =>
      if Ascii.eqb c "010" then [c] :: readlines rest
      else match readlines rest with
           | [] => [[c]]
           | line :: lines => (c :: line) :: lines
           end
  end.

(** [line.split()]: the maximal runs of characters that are not spaces. *)
Fixpoint split_from (word : list ascii) (line : list ascii) : list (list ascii) :=
  match line with
  | [] => match word with [] => [] | _ => [rev word] end
  | c :: rest =>
      if isspace c
      then match word with
           | [] => split_from [] rest
           | _ => rev word :: split_from [] rest
           end
      else split_from (c :: word) rest
  end.

Definition split (line : list ascii) : list (list ascii) := split_from [] line.

(** [line and not line.startswith("#")]. *)
Definition is_rule_line (line : list ascii) : bool :=
  match line with
  | [] => false
  | c :: _ => negb (Ascii.eqb c "#")
  end.

(** Lines 69-72: the rule a word stands for. *)
Definition rule_of_word (word : list ascii) : Rule :=
  (Counter.of_list (filter (fun symbol => symbol ∈ SYMBOLS) word),
   Counter.of_list
     (map lower (filter (fun symbol => symbol ∈ map upper SYMBOLS) word))).

(** The rules of one file's text. *)
Definition rules_of_text (text : string) : list Rule :=
  flat_map (fun line => map rule_of_word (split line))
    (List.filter is_rule_line (readlines (list_ascii_of_string text))).

(** Lines 69-76: the files are opened and read in order; [fs] gives the text
    of the files that exist, and a missing one raises from [open]. *)
Fixpoint load_rules (fs : gmap string string) (input_rules : list string)
    : exn + list Rule :=
  match input_rules with
  | [] => inr []
  | fname :: rest =>
      match fs !! fname with
      | None => inl (OSError fname)
      | Some text =>
          match load_rules fs rest with
          | inl e => inl e
          | inr rules => inr (rules_of_text text ++ rules)
          end
      end
  end.

(** Lines 80-81: the cell read from stdin. *)
Definition read_state (input_state : string) : Counter :=
  Counter.of_list
    (filter (fun symbol => symbol ∈ SYMBOLS) (list_ascii_of_string input_state)).

(** Lines 77-79: the first rule without outgoing symbols raises. *)
Definition check_rules (rules : list Rule) : bool :=
  forallb (fun rule => Counter.truth rule.1) rules.

(** [main(input_rules, input_state, opts)]. *)
Definition main (fuel : nat) (fs : gmap string string)
    (input_rules : list string) (input_state : string) (opts : Options) : result :=
  match load_rules fs input_rules with
  | inl e => {| ended := Raised e; steps := 0; printed := [] |}
  | inr rules =>
      if check_rules rules then
        let state0 := read_state input_state in
        let r := run fuel rules state0 opts in
        match ended r with
        | Returned final =>
            {| ended := Returned final; steps := steps r;
               printed := printed r ++ [PrintState final] |}
        | _ => r
        end
      else {| ended := Raised InvalidRule; steps := 0; printed := [] |}
  end.

(** The [__main__] block: what is on stdout in the end, and the exit code
    once the process has exited. *)
Definition script (fuel : nat) (fs : gmap string string)
    (args : list string) (stdin : string) (options : Options)
    : list event * option Z :=
  let r := main fuel fs args stdin options in
  match ended r with
  | Returned _ => (printed r, Some 0)
  | Raised e => (printed r ++ [PrintError e], Some 1)
  | Unfinished _ => (printed r, None)
  end.

(** *** What a run shows *)

(** A run has left [run] (or [main]): it returned or raised. *)
Definition finished (r : result) : bool :=
  match ended r with
  | Unfinished _ => false
  | _ => true
  end.

(** The Counters an observer gets to see: in a printed line, in the value
    returned, in the exception raised, in the cell of a run under way. *)
Definition event_counters (e : event) : list Counter :=
  match e with
  | PrintState s => [s]
  | PrintRule outgoing incoming => [outgoing; incoming]
  | PrintError (IncreasingSequence prev s) => [prev; s]
  | PrintError _ => []
  end.

Definition outcome_counters (o : outcome) : list Counter :=
  match o with
  | Returned s => [s]
  | Raised (IncreasingSequence prev s) => [prev; s]
  | Raised _ => []
  | Unfinished s => [s]
  end.

Definition observable (r : result) : list Counter :=
  outcome_counters (ended r) ++ flat_map event_counters (printed r).

End Psy.


(** ** The program against the specification's step *)
Module Sim.

(** The variables of a pass stand for the specification's [state],
    [pending] and [fired]. *)
Definition refines (l : Psy.locals) (state pending : Counter) (fired : bool) : Prop :=
  Spec.same (Psy.state l) state /\ Spec.same (Psy.to_add l) pending
  /\ fired = negb (Psy.end_ l).

(** A rule of multisets. *)
Definition rule_ok (rule : Psy.Rule) : Prop :=
  Spec.Multiset rule.1 /\ Spec.Multiset rule.2.

(** A rule the loader lets through: some symbol goes out. *)
Definition rule_valid (rule : Psy.Rule) : Prop :=
  rule_ok rule /\ exists k, 0 < Counter.getitem rule.1 k.

(** What a pass holds and has printed is made of multisets. *)
Definition locals_ok (l : Psy.locals) : Prop :=
  Spec.Multiset (Psy.state l) /\ Spec.Multiset (Psy.to_add l)
  /\ Forall Spec.Multiset (flat_map Psy.event_counters (Psy.stdout l)).

End Sim.

(** ** The scenarios of the specification *)
Module Scenario.

Definition plain : Psy.Options := {| Psy.verbose := false; Psy.detect_loops := false |}.
Definition with_l : Psy.Options := {| Psy.verbose := false; Psy.detect_loops := true |}.
Definition with_v : Psy.Options := {| Psy.verbose := true; Psy.detect_loops := false |}.

(** A file system with one program file. *)
Definition program (text : string) : gmap string string := {[ "program"%string := text ]}.

(** Scenario A: rule [aB], input ["a"]. *)
Definition rules_A : list Psy.Rule := Psy.rules_of_text "aB".
Definition state_A : Counter := Psy.read_state "a".

(** Scenario B: rule [aaB], input ["aaaa"]. *)
Definition rules_B : list Psy.Rule := Psy.rules_of_text "aaB".
Definition state_B : Counter := Psy.read_state "aaaa".

End Scenario.

(** ** Reading the output of [-v] *)
Module Account.

(** What one printed line says was taken out of, and put into, the cell for
    the symbol [k]: a rule line tells its two sides, other lines nothing. *)
Definition taken (k : ascii) (e : Psy.event) : Z :=
  match e with
  | Psy.PrintRule outgoing _ => Counter.getitem outgoing k
  | _ => 0
  end.

Definition given (k : ascii) (e : Psy.event) : Z :=
  match e with
  | Psy.PrintRule _ incoming => Counter.getitem incoming k
  | _ => 0
  end.

(** The sum of [f] over the printed lines. *)
Definition total (f : Psy.event -> Z) (out : list Psy.event) : Z :=
  foldr (fun e acc => f e + acc) 0 out.

(** What the outgoing sides, and the incoming sides, of a list of rule
    applications add up to for the symbol [k]. *)
Definition out_sum (k : ascii) (applied : list Psy.Rule) : Z :=
  foldr (fun rule acc => Counter.getitem rule.1 k + acc) 0 applied.

Definition in_sum (k : ascii) (applied : list Psy.Rule) : Z :=
  foldr (fun rule acc => Counter.getitem rule.2 k + acc) 0 applied.

End Account.

(** * Theorems *)

(** ** Counter arithmetic, read through [getitem] *)
Section CounterFacts.
Implicit Types a b c : Counter.
Implicit Types k : ascii.

Lemma getitem_empty k : Counter.getitem ∅ k = 0.
Proof. unfold Counter.getitem. by rewrite lookup_empty. Qed.

Lemma getitem_keep_positive c k :
  Counter.getitem (Counter.keep_positive c) k = Z.max 0 (Counter.getitem c k).
Proof.
  unfold Counter.getitem, Counter.keep_positive.
  rewrite map_lookup_filter.
  destruct (c !! k) as [n|]; simpl; [|done].
  case_guard; simpl in *; lia.
Qed.

Lemma getitem_sub a b k :
  Counter.getitem (Counter.sub a b) k
  = Z.max 0 (Counter.getitem a k - Counter.getitem b k).
Proof.
  unfold Counter.getitem, Counter.sub. rewrite lookup_merge.
  destruct (a !! k) as [n|], (b !! k) as [m|]; simpl;
    repeat case_decide; simpl; lia.
Qed.

Lemma getitem_add a b k :
  Counter.getitem (Counter.add a b) k
  = Z.max 0 (Counter.getitem a k + Counter.getitem b k).
Proof.
  unfold Counter.getitem, Counter.add. rewrite lookup_merge.
  destruct (a !! k) as [n|], (b !! k) as [m|]; simpl;
    repeat case_decide; simpl; lia.
Qed.

Lemma getitem_isub a b k :
  Counter.getitem (Counter.isub a b) k
  = Z.max 0 (Counter.getitem a k - Counter.getitem b k).
Proof.
  unfold Counter.isub. rewrite getitem_keep_positive. f_equal.
  unfold Counter.getitem. rewrite lookup_merge.
  destruct (a !! k) as [n|], (b !! k) as [m|]; simpl; lia.
Qed.

Lemma getitem_iadd a b k :
  Counter.getitem (Counter.iadd a b) k
  = Z.max 0 (Counter.getitem a k + Counter.getitem b k).
Proof.
  unfold Counter.iadd. rewrite getitem_keep_positive. f_equal.
  unfold Counter.getitem. rewrite lookup_merge.
  destruct (a !! k) as [n|], (b !! k) as [m|]; simpl; lia.
Qed.

Lemma positive_lookup c k :
  Counter.positive c ->
  c !! k = if decide (0 < Counter.getitem c k) then Some (Counter.getitem c k) else None.
Proof.
  intros Hc. unfold Counter.getitem.
  destruct (c !! k) as [n|] eqn:E; cbv [default from_option id].
  - specialize (Hc k n E). cbn beta in Hc. destruct (decide (0 < n)); [done | lia].
  - destruct (decide (0 < 0)); [lia | done].
Qed.

Lemma positive_ext a b :
  Counter.positive a -> Counter.positive b -> Spec.same a b -> a = b.
Proof.
  intros Ha Hb Hab. apply map_eq. intros k.
  rewrite (positive_lookup a k Ha), (positive_lookup b k Hb).
  by rewrite (Hab k).
Qed.

Lemma positive_Multiset c : Counter.positive c -> Spec.Multiset c.
Proof. intros Hc k n E. specialize (Hc k n E). simpl in *. lia. Qed.

Lemma Multiset_getitem c k : Spec.Multiset c -> 0 <= Counter.getitem c k.
Proof.
  intros Hc. unfold Counter.getitem.
  destruct (c !! k) as [n|] eqn:E; simpl; [exact (Hc k n E) | lia].
Qed.

Lemma getitem_Multiset c : (forall k, 0 <= Counter.getitem c k) -> Spec.Multiset c.
Proof.
  intros H k n E. specialize (H k). unfold Counter.getitem in H.
  by rewrite E in H.
Qed.

Lemma positive_empty : Counter.positive ∅.
Proof. apply map_Forall_empty. Qed.

Lemma positive_keep_positive c : Counter.positive (Counter.keep_positive c).
Proof.
  intros k n E. apply map_lookup_filter_Some in E. by destruct E.
Qed.

Lemma positive_isub a b : Counter.positive (Counter.isub a b).
Proof. apply positive_keep_positive. Qed.

Lemma positive_iadd a b : Counter.positive (Counter.iadd a b).
Proof. apply positive_keep_positive. Qed.

Lemma positive_sub a b : Counter.positive (Counter.sub a b).
Proof.
  intros k n E. unfold Counter.sub in E. rewrite lookup_merge in E.
  destruct (a !! k), (b !! k); simpl in E; repeat case_decide;
    simplify_eq; simpl; lia.
Qed.

Lemma positive_add a b : Counter.positive (Counter.add a b).
Proof.
  intros k n E. unfold Counter.add in E. rewrite lookup_merge in E.
  destruct (a !! k), (b !! k); simpl in E; repeat case_decide;
    simplify_eq; simpl; lia.
Qed.

Lemma keep_positive_id c : Counter.positive c -> Counter.keep_positive c = c.
Proof.
  intros Hc. apply positive_ext; [apply positive_keep_positive | done |].
  intros k. rewrite getitem_keep_positive.
  pose proof (Multiset_getitem c k (positive_Multiset c Hc)). lia.
Qed.

Lemma getitem_0_outside c k : k ∉ dom c -> Counter.getitem c k = 0.
Proof.
  intros H. apply not_elem_of_dom in H. unfold Counter.getitem. by rewrite H.
Qed.

(** [==] holds exactly when all counts agree. *)
Lemma eq_same a b : Counter.eq a b = true <-> Spec.same a b.
Proof.
  unfold Counter.eq. rewrite bool_decide_eq_true. split.
  - intros H k. destruct (decide (k ∈ dom a ∪ dom b)) as [Hk|Hk]; [by apply H|].
    by rewrite !getitem_0_outside by set_solver.
  - intros H k _. apply H.
Qed.

(** On Counters without zero or negative entries [==] is dict equality. *)
Lemma eq_positive a b :
  Counter.positive a -> Counter.positive b -> Counter.eq a b = bool_decide (a = b).
Proof.
  intros Ha Hb. apply eq_true_iff_eq. split; intros H.
  - apply bool_decide_eq_true. apply positive_ext; [done..|]. by apply eq_same.
  - apply bool_decide_eq_true in H. subst b. by apply eq_same.
Qed.

Lemma contains_ge a b :
  Spec.contains a b = true <-> forall k, Counter.getitem a k >= Counter.getitem b k.
Proof.
  unfold Spec.contains. rewrite bool_decide_eq_true. split.
  - intros H k. destruct (decide (k ∈ dom a ∪ dom b)) as [Hk|Hk]; [by apply H|].
    rewrite !getitem_0_outside by set_solver. lia.
  - intros H k _. apply H.
Qed.

(** The program's test [state - other + other == state], count by count. *)
Lemma dominates_getitem a b :
  Psy.dominates a b = true <->
  forall k, Z.max 0 (Z.max 0 (Counter.getitem a k - Counter.getitem b k)
                     + Counter.getitem b k) = Counter.getitem a k.
Proof.
  unfold Psy.dominates. rewrite eq_same. unfold Spec.same.
  by setoid_rewrite getitem_add; setoid_rewrite getitem_sub.
Qed.

(** On multisets the test is the specification's [contains]. *)
Lemma dominates_contains a b :
  Spec.Multiset a -> Spec.Multiset b -> Psy.dominates a b = Spec.contains a b.
Proof.
  intros Ha Hb. apply eq_true_iff_eq.
  destruct (dominates_getitem a b) as [D1 D2].
  destruct (contains_ge a b) as [C1 C2].
  split; intros H; [apply C2; specialize (D1 H) | apply D2; specialize (C1 H)];
    intros k; [specialize (D1 k) | specialize (C1 k)];
    pose proof (Multiset_getitem a k Ha); pose proof (Multiset_getitem b k Hb); lia.
Qed.

End CounterFacts.

(** ** The loops: unfolding and fuel *)
Section Fuel.
Implicit Types (opts : Psy.Options) (l : Psy.locals) (rules : list Psy.Rule).

Lemma apply_rule_unfold fuel opts outgoing incoming l :
  Psy.apply_rule fuel opts outgoing incoming l =
  if Psy.dominates (Psy.state l) outgoing then
    match fuel with
    | O => (l, false)
    | S fuel' =>
        Psy.apply_rule fuel' opts outgoing incoming
          {| Psy.state := Counter.isub (Psy.state l) outgoing;
             Psy.to_add := Counter.iadd (Psy.to_add l) incoming;
             Psy.end_ := false;
             Psy.stdout := Psy.print_if (Psy.verbose opts)
                             (Psy.PrintRule outgoing incoming) (Psy.stdout l) |}
    end
  else (l, true).
Proof. by destruct fuel. Qed.

(** A loop that reached its [break] does so with any larger fuel. *)
Lemma apply_rule_more fuel fuel' opts outgoing incoming l l' :
  Psy.apply_rule fuel opts outgoing incoming l = (l', true) ->
  (fuel <= fuel')%nat ->
  Psy.apply_rule fuel' opts outgoing incoming l = (l', true).
Proof.
  revert fuel' l. induction fuel as [|fuel IH]; intros fuel' l H Hle;
    rewrite apply_rule_unfold in H |- *;
    destruct (Psy.dominates (Psy.state l) outgoing); try done.
  destruct fuel' as [|fuel']; [lia|]. apply IH; [done | lia].
Qed.

Lemma for_rules_more fuel fuel' opts rules l l' :
  Psy.for_rules fuel opts rules l = (l', true) ->
  (fuel <= fuel')%nat ->
  Psy.for_rules fuel' opts rules l = (l', true).
Proof.
  revert l. induction rules as [|[outgoing incoming] rest IH]; intros l H Hle;
    simpl in *; [done|].
  destruct (Psy.apply_rule fuel opts outgoing incoming l) as [l1 [|]] eqn:E;
    [|done].
  rewrite (apply_rule_more _ _ _ _ _ _ _ E Hle). by apply IH.
Qed.

Lemma step_more fuel fuel' opts rules s out l' :
  Psy.step fuel opts rules s out = (l', true) ->
  (fuel <= fuel')%nat ->
  Psy.step fuel' opts rules s out = (l', true).
Proof.
  unfold Psy.step. intros H Hle.
  destruct (Psy.for_rules fuel _ _ _) as [l [|]] eqn:E; [|done].
  by rewrite (for_rules_more _ _ _ _ _ _ E Hle).
Qed.

Lemma run_loop_more fuel fuel' opts rules s previous_states n out :
  Psy.finished (Psy.run_loop fuel opts rules s previous_states n out) = true ->
  (fuel <= fuel')%nat ->
  Psy.run_loop fuel' opts rules s previous_states n out
  = Psy.run_loop fuel opts rules s previous_states n out.
Proof.
  revert fuel' s previous_states n out.
  induction fuel as [|fuel IH]; intros fuel' s previous_states n out H Hle;
    [done|].
  destruct fuel' as [|fuel']; [lia|]. simpl in *.
  destruct (Psy.step fuel opts rules s out) as [l [|]] eqn:E; [|done].
  rewrite (step_more _ fuel' _ _ _ _ _ E) by lia.
  destruct (if Psy.detect_loops opts then _ else _); [done|].
  destruct (Psy.end_ l); [done|]. apply IH; [done | lia].
Qed.

Lemma run_more fuel fuel' rules s opts :
  Psy.finished (Psy.run fuel rules s opts) = true ->
  (fuel <= fuel')%nat ->
  Psy.run fuel' rules s opts = Psy.run fuel rules s opts.
Proof. apply run_loop_more. Qed.

End Fuel.

(** ** One pass is the specification's step *)
Section Refinement.
Implicit Types (opts : Psy.Options) (l : Psy.locals) (rules : list Psy.Rule).
Implicit Types a b c : Counter.

Lemma getitem_subtract a b k :
  Counter.getitem (Spec.subtract a b) k = Counter.getitem a k - Counter.getitem b k.
Proof.
  unfold Counter.getitem, Spec.subtract. rewrite lookup_merge.
  by destruct (a !! k), (b !! k).
Qed.

Lemma getitem_spec_add a b k :
  Counter.getitem (Spec.add a b) k = Counter.getitem a k + Counter.getitem b k.
Proof.
  unfold Counter.getitem, Spec.add. rewrite lookup_merge.
  by destruct (a !! k), (b !! k).
Qed.

Lemma contains_same a a' b :
  Spec.same a a' -> Spec.contains a b = Spec.contains a' b.
Proof.
  intros Ha. apply eq_true_iff_eq.
  destruct (contains_ge a b) as [A1 A2], (contains_ge a' b) as [B1 B2].
  split; intros H; [apply B2 | apply A2]; intros k;
    [rewrite <- (Ha k) | rewrite (Ha k)]; auto.
Qed.

Lemma same_Multiset a b : Spec.same a b -> Spec.Multiset a -> Spec.Multiset b.
Proof.
  intros Hab Ha. apply getitem_Multiset. intros k. rewrite <- (Hab k).
  by apply Multiset_getitem.
Qed.

(** Under the test, [state -= outgoing] is the exact difference. *)
Lemma isub_exact a b k :
  Spec.Multiset a -> Spec.Multiset b -> Psy.dominates a b = true ->
  Counter.getitem (Counter.isub a b) k = Counter.getitem a k - Counter.getitem b k
  /\ 0 <= Counter.getitem a k - Counter.getitem b k.
Proof.
  intros Ha Hb H. rewrite dominates_contains in H by done.
  destruct (contains_ge a b) as [C _]. specialize (C H k).
  rewrite getitem_isub. lia.
Qed.

Lemma iadd_exact a b k :
  Spec.Multiset a -> Spec.Multiset b ->
  Counter.getitem (Counter.iadd a b) k = Counter.getitem a k + Counter.getitem b k.
Proof.
  intros Ha Hb. rewrite getitem_iadd.
  pose proof (Multiset_getitem a k Ha). pose proof (Multiset_getitem b k Hb). lia.
Qed.

Lemma apply_rule_refines fuel opts outgoing incoming l s p fired :
  Spec.Multiset outgoing -> Spec.Multiset incoming ->
  Spec.Multiset (Psy.state l) -> Spec.Multiset (Psy.to_add l) ->
  Sim.refines l s p fired ->
  forall l' fin s' p' fired' fin',
    Psy.apply_rule fuel opts outgoing incoming l = (l', fin) ->
    Spec.exhaust fuel outgoing incoming s p fired = (s', p', fired', fin') ->
    fin = fin' /\ Sim.refines l' s' p' fired'
    /\ Spec.Multiset (Psy.state l') /\ Spec.Multiset (Psy.to_add l').
Proof.
  intros Ho Hi. revert l s p fired.
  induction fuel as [|fuel IH]; intros l s p fired Hs Ht (R1 & R2 & R3)
    l' fin s' p' fired' fin' E1 E2;
    rewrite apply_rule_unfold in E1; simpl in E2;
    rewrite <- (contains_same _ _ outgoing R1) in E2;
    rewrite <- (dominates_contains _ _ Hs Ho) in E2;
    destruct (Psy.dominates (Psy.state l) outgoing) eqn:D;
    try (by simplify_eq).
  eapply (IH _ _ _ _ _ _ _ _ _ _ _ _ _ E1 E2).
  Unshelve.
  - simpl. apply positive_Multiset, positive_isub.
  - simpl. apply positive_Multiset, positive_iadd.
  - repeat split; simpl.
    + intros k. rewrite getitem_subtract, <- (R1 k).
      by destruct (isub_exact _ _ k Hs Ho D).
    + intros k. rewrite getitem_spec_add, <- (R2 k). by apply iadd_exact.
Qed.

Lemma for_rules_refines fuel opts rules l s p fired :
  Forall Sim.rule_ok rules ->
  Spec.Multiset (Psy.state l) -> Spec.Multiset (Psy.to_add l) ->
  Sim.refines l s p fired ->
  forall l' fin s' p' fired' fin',
    Psy.for_rules fuel opts rules l = (l', fin) ->
    Spec.scan fuel rules s p fired = (s', p', fired', fin') ->
    fin = fin' /\ Sim.refines l' s' p' fired'
    /\ Spec.Multiset (Psy.state l') /\ Spec.Multiset (Psy.to_add l').
Proof.
  intros Hr. revert l s p fired.
  induction Hr as [|[outgoing incoming] rest [Ho Hi] _ IH];
    intros l s p fired Hs Ht R l' fin s' p' fired' fin' E1 E2; simpl in *.
  - by simplify_eq.
  - destruct (Psy.apply_rule fuel opts outgoing incoming l) as [l1 fin1] eqn:A.
    destruct (Spec.exhaust fuel outgoing incoming s p fired)
      as [[[s1 p1] fired1] fin1'] eqn:B.
    destruct (apply_rule_refines _ _ _ _ _ _ _ _ Ho Hi Hs Ht R _ _ _ _ _ _ A B)
      as (<- & R1 & Hs1 & Ht1).
    destruct fin1; [by eapply IH | by simplify_eq].
Qed.

End Refinement.

(** ** A pass comes to its end *)
Section Termination.
Implicit Types (opts : Psy.Options) (l : Psy.locals) (rules : list Psy.Rule).

Lemma getitem_bounded (c : Counter) : exists B, forall k, Counter.getitem c k <= B.
Proof.
  induction c as [|i x m Hi IH] using map_ind.
  - exists 0. intros k. by rewrite getitem_empty.
  - destruct IH as [B HB]. exists (Z.max B x). intros k.
    unfold Counter.getitem in *. destruct (decide (i = k)) as [->|Hne].
    + rewrite lookup_insert_eq. simpl. lia.
    + rewrite lookup_insert_ne by done. specialize (HB k). lia.
Qed.

(** Every application takes at least one [k] out of the cell, so the count
    of [k] bounds the iterations. *)
Lemma apply_rule_finishes fuel opts outgoing incoming l k :
  Spec.Multiset outgoing -> 0 < Counter.getitem outgoing k ->
  Spec.Multiset (Psy.state l) ->
  (Z.to_nat (Counter.getitem (Psy.state l) k) <= fuel)%nat ->
  exists l', Psy.apply_rule fuel opts outgoing incoming l = (l', true)
    /\ Spec.Multiset (Psy.state l')
    /\ forall j, Counter.getitem (Psy.state l') j <= Counter.getitem (Psy.state l) j.
Proof.
  intros Ho Hk. revert l.
  induction fuel as [|fuel IH]; intros l Hs Hfuel; rewrite apply_rule_unfold;
    destruct (Psy.dominates (Psy.state l) outgoing) eqn:D;
    try (exists l; split; [done | split; [done | intros j; lia]]).
  - destruct (isub_exact _ _ k Hs Ho D) as [_ Hge]. lia.
  - destruct (isub_exact _ _ k Hs Ho D) as [Hx Hge].
    edestruct (IH {| Psy.state := Counter.isub (Psy.state l) outgoing;
                     Psy.to_add := Counter.iadd (Psy.to_add l) incoming;
                     Psy.end_ := false;
                     Psy.stdout := Psy.print_if (Psy.verbose opts)
                       (Psy.PrintRule outgoing incoming) (Psy.stdout l) |})
      as (l' & E & Hs' & Hle).
    + simpl. apply positive_Multiset, positive_isub.
    + simpl. rewrite Hx. lia.
    + exists l'. split; [done | split; [done|]]. intros j.
      specialize (Hle j). simpl in Hle.
      destruct (isub_exact _ _ j Hs Ho D) as [Hj _]. rewrite Hj in Hle.
      pose proof (Multiset_getitem outgoing j Ho). lia.
Qed.

Lemma for_rules_finishes fuel opts rules l B :
  Forall Sim.rule_valid rules ->
  Spec.Multiset (Psy.state l) ->
  (forall j, Counter.getitem (Psy.state l) j <= B) ->
  (Z.to_nat B <= fuel)%nat ->
  exists l', Psy.for_rules fuel opts rules l = (l', true).
Proof.
  intros Hr. revert l.
  induction Hr as [|[outgoing incoming] rest [[Ho Hi] [k Hk]] _ IH];
    intros l Hs HB Hfuel; simpl in *; [by eexists|].
  destruct (apply_rule_finishes fuel opts outgoing incoming l k Ho Hk Hs)
    as (l1 & -> & Hs1 & Hle).
  { specialize (HB k). lia. }
  apply IH; [done | | done]. intros j. specialize (Hle j). specialize (HB j). lia.
Qed.

(** With rules the loader accepts, a pass on a multiset is completed once
    the fuel is large enough. *)
Lemma step_total opts rules s out :
  Spec.Multiset s -> Forall Sim.rule_valid rules ->
  exists bound, forall fuel, (bound <= fuel)%nat ->
    (Psy.step fuel opts rules s out).2 = true.
Proof.
  intros Hs Hr. destruct (getitem_bounded s) as [B HB].
  exists (Z.to_nat B). intros fuel Hfuel. unfold Psy.step.
  edestruct (for_rules_finishes fuel opts rules) as [l' ->]; [done | | | done |];
    simpl; done.
Qed.

End Termination.

(** ** Counts never go below zero *)
Section NonNegative.
Implicit Types (opts : Psy.Options) (l : Psy.locals) (rules : list Psy.Rule).

Lemma print_if_ok on e out :
  Forall Spec.Multiset (Psy.event_counters e) ->
  Forall Spec.Multiset (flat_map Psy.event_counters out) ->
  Forall Spec.Multiset (flat_map Psy.event_counters (Psy.print_if on e out)).
Proof.
  intros He Hout. destruct on; simpl; [|done].
  rewrite flat_map_app. apply Forall_app. split; [done|].
  simpl. by rewrite app_nil_r.
Qed.

Lemma apply_rule_ok fuel opts outgoing incoming l :
  Spec.Multiset outgoing -> Spec.Multiset incoming ->
  Sim.locals_ok l ->
  Sim.locals_ok (Psy.apply_rule fuel opts outgoing incoming l).1.
Proof.
  intros Ho Hi. revert l.
  induction fuel as [|fuel IH]; intros l Hl; rewrite apply_rule_unfold;
    destruct (Psy.dominates (Psy.state l) outgoing); try done.
  apply IH. destruct Hl as (_ & _ & Hout). repeat split; simpl.
  - apply positive_Multiset, positive_isub.
  - apply positive_Multiset, positive_iadd.
  - apply print_if_ok; [|done]. simpl. by repeat constructor.
Qed.

Lemma for_rules_ok fuel opts rules l :
  Forall Sim.rule_ok rules -> Sim.locals_ok l ->
  Sim.locals_ok (Psy.for_rules fuel opts rules l).1.
Proof.
  intros Hr. revert l.
  induction Hr as [|[outgoing incoming] rest [Ho Hi] _ IH]; intros l Hl;
    simpl; [done|].
  pose proof (apply_rule_ok fuel opts outgoing incoming l Ho Hi Hl) as H1.
  destruct (Psy.apply_rule fuel opts outgoing incoming l) as [l1 [|]];
    simpl in *; [by apply IH | done].
Qed.

Lemma step_ok fuel opts rules s out :
  Forall Sim.rule_ok rules -> Spec.Multiset s ->
  Forall Spec.Multiset (flat_map Psy.event_counters out) ->
  Sim.locals_ok (Psy.step fuel opts rules s out).1.
Proof.
  intros Hr Hs Hout. unfold Psy.step.
  match goal with |- context [Psy.for_rules fuel opts rules ?l0] =>
    pose proof (for_rules_ok fuel opts rules l0 Hr) as H;
    destruct (Psy.for_rules fuel opts rules l0) as [l [|]] end;
    simpl in *.
  - destruct H as (_ & Ht & Hp).
    { repeat split; simpl; [done | apply map_Forall_empty |].
      apply print_if_ok; [|done]. simpl. by repeat constructor. }
    repeat split; simpl; [apply positive_Multiset, positive_iadd | done..].
  - apply H. repeat split; simpl; [done | apply map_Forall_empty |].
    apply print_if_ok; [|done]. simpl. by repeat constructor.
Qed.

Lemma run_loop_ok fuel opts rules s previous_states n out :
  Forall Sim.rule_ok rules -> Spec.Multiset s ->
  Forall Spec.Multiset previous_states ->
  Forall Spec.Multiset (flat_map Psy.event_counters out) ->
  Forall Spec.Multiset
    (Psy.observable (Psy.run_loop fuel opts rules s previous_states n out)).
Proof.
  intros Hr. revert s previous_states n out.
  induction fuel as [|fuel IH]; intros s previous_states n out Hs Hp Hout;
    simpl.
  - unfold Psy.observable. simpl. by constructor.
  - pose proof (step_ok fuel opts rules s out Hr Hs Hout) as (Hs1 & _ & Hout1).
    destruct (Psy.step fuel opts rules s out) as [l [|]]; simpl in *.
    + destruct (if Psy.detect_loops opts then _ else _) as [prev|] eqn:F.
      * unfold Psy.observable. simpl. constructor; [|by constructor].
        destruct (Psy.detect_loops opts); [|done].
        apply find_some in F as [Hin _].
        rewrite Forall_forall in Hp. apply Hp. by apply list_elem_of_In.
      * destruct (Psy.end_ l).
        -- unfold Psy.observable. simpl. by constructor.
        -- apply IH; [done | | done].
           destruct (Psy.detect_loops opts); [|done].
           apply Forall_app. split; [done|]. by constructor.
    + unfold Psy.observable. simpl. by constructor.
Qed.

End NonNegative.

(** ** The pass that fires nothing *)
Section Halting.
Implicit Types (opts : Psy.Options) (l : Psy.locals) (rules : list Psy.Rule).

Lemma apply_rule_end_false fuel opts outgoing incoming l :
  Psy.end_ l = false ->
  Psy.end_ (Psy.apply_rule fuel opts outgoing incoming l).1 = false.
Proof.
  revert l. induction fuel as [|fuel IH]; intros l Hl; rewrite apply_rule_unfold;
    destruct (Psy.dominates (Psy.state l) outgoing); try done.
  by apply IH.
Qed.

(** [end] is still true after a rule only if the rule was not applied. *)
Lemma apply_rule_end_true fuel opts outgoing incoming l l' :
  Psy.apply_rule fuel opts outgoing incoming l = (l', true) ->
  Psy.end_ l' = true ->
  l' = l /\ Psy.dominates (Psy.state l) outgoing = false.
Proof.
  rewrite apply_rule_unfold.
  destruct (Psy.dominates (Psy.state l) outgoing); [|by intros [= <-]].
  destruct fuel as [|fuel]; [done|]. intros E He.
  match type of E with Psy.apply_rule _ _ _ _ ?l0 = _ =>
    pose proof (apply_rule_end_false fuel opts outgoing incoming l0 eq_refl) as F
  end.
  rewrite E in F. simpl in F. congruence.
Qed.

Lemma for_rules_end_true fuel opts rules l l' :
  Psy.for_rules fuel opts rules l = (l', true) ->
  Psy.end_ l' = true ->
  l' = l /\ Forall (fun rule => Psy.dominates (Psy.state l) rule.1 = false) rules.
Proof.
  revert l. induction rules as [|[outgoing incoming] rest IH]; intros l E He;
    simpl in *.
  - by simplify_eq.
  - destruct (Psy.apply_rule fuel opts outgoing incoming l) as [l1 [|]] eqn:A;
      [|done].
    destruct (IH _ E He) as [-> Hrest].
    destruct (apply_rule_end_true _ _ _ _ _ _ A He) as [-> D].
    split; [done|]. by constructor.
Qed.

Lemma iadd_empty (a : Counter) : Counter.iadd a ∅ = Counter.keep_positive a.
Proof.
  unfold Counter.iadd. f_equal. apply map_eq. intros k.
  rewrite lookup_merge, lookup_empty. by destruct (a !! k).
Qed.

(** A completed pass in which no rule fired leaves the cell as it was (up
    to [_keep_positive]), and no rule's outgoing side was in the cell. *)
Lemma step_end_true fuel opts rules s out l :
  Psy.step fuel opts rules s out = (l, true) ->
  Psy.end_ l = true ->
  Psy.state l = Counter.keep_positive s
  /\ Psy.stdout l = Psy.print_if (Psy.verbose opts) (Psy.PrintState s) out
  /\ Forall (fun rule => Psy.dominates s rule.1 = false) rules.
Proof.
  unfold Psy.step. intros E He.
  destruct (Psy.for_rules _ _ _ _) as [l1 [|]] eqn:F; [|done].
  simplify_eq. simpl in *.
  destruct (for_rules_end_true _ _ _ _ _ F He) as [-> Hr]. simpl in *.
  by rewrite iadd_empty.
Qed.


(** The cell after such a pass passes the test against the cell before. *)
Lemma dominates_keep_positive (s : Counter) :
  Psy.dominates (Counter.keep_positive s) s = true.
Proof.
  apply dominates_getitem. intros k. rewrite getitem_keep_positive. lia.
Qed.


(** With [-l], the same pass raises: the last entry of [previous_states] is
    the cell the pass started from. *)
Lemma run_loop_detect_raises fuel opts rules s previous_states n out l :
  Psy.detect_loops opts = true ->
  last previous_states = Some s ->
  Psy.step fuel opts rules s out = (l, true) ->
  Psy.end_ l = true ->
  exists prev, prev ∈ previous_states /\
    Psy.run_loop (S fuel) opts rules s previous_states n out
    = {| Psy.ended := Psy.Raised (Psy.IncreasingSequence prev (Psy.state l));
         Psy.steps := S n; Psy.printed := Psy.stdout l |}.
Proof.
  intros Hd Hlast E He. simpl. rewrite E, Hd.
  destruct (step_end_true _ _ _ _ _ _ E He) as (Hs & _ & _).
  destruct (find _ previous_states) as [prev|] eqn:F.
  - exists prev. split; [|done]. apply find_some in F as [Hin _].
    by apply list_elem_of_In.
  - exfalso. apply last_Some in Hlast as [h ->].
    pose proof (find_none _ _ F s) as N. simpl in N.
    rewrite Hs, dominates_keep_positive in N.
    discriminate N. apply in_or_app. right. by left.
Qed.

Lemma run_loop_detect_never_returns fuel opts rules s previous_states n out s' :
  Psy.detect_loops opts = true ->
  last previous_states = Some s ->
  Psy.ended (Psy.run_loop fuel opts rules s previous_states n out)
  <> Psy.Returned s'.
Proof.
  intros Hd. revert s previous_states n out.
  induction fuel as [|fuel IH]; intros s previous_states n out Hlast; [done|].
  destruct (Psy.step fuel opts rules s out) as [l fin] eqn:E.
  destruct fin; [|by simpl; rewrite E].
  destruct (Psy.end_ l) eqn:He.
  - destruct (run_loop_detect_raises _ _ _ _ _ n _ _ Hd Hlast E He)
      as (prev & _ & ->). done.
  - simpl. rewrite E, Hd, He.
    destruct (find _ previous_states); [done|].
    apply IH. unfold Counter.copy. by rewrite last_snoc.
Qed.

End Halting.

(** ** Reading the rules and the cell *)
Section Loading.
Implicit Types (l : list ascii) (c : Counter) (k : ascii).

Lemma of_list_from c l k :
  Counter.getitem (foldl (fun c k => <[k := Counter.getitem c k + 1]> c) c l) k
  = Counter.getitem c k + Z.of_nat (count_occ Ascii.ascii_dec l k).
Proof.
  revert c. induction l as [|x l IH]; intros c; simpl; [lia|].
  rewrite IH. unfold Counter.getitem at 1.
  destruct (Ascii.ascii_dec x k) as [->|Hne].
  - rewrite lookup_insert_eq. simpl. lia.
  - rewrite lookup_insert_ne by done. fold (Counter.getitem c k). lia.
Qed.

(** [Counter(iterable)] counts the occurrences. *)
Lemma getitem_of_list l k :
  Counter.getitem (Counter.of_list l) k = Z.of_nat (count_occ Ascii.ascii_dec l k).
Proof. unfold Counter.of_list. rewrite of_list_from, getitem_empty. lia. Qed.

Lemma positive_insert_succ c k :
  Counter.positive c -> Counter.positive (<[k := Counter.getitem c k + 1]> c).
Proof.
  intros Hc. apply map_Forall_insert_2; [|done].
  pose proof (Multiset_getitem c k (positive_Multiset c Hc)). lia.
Qed.

Lemma positive_of_list l : Counter.positive (Counter.of_list l).
Proof.
  unfold Counter.of_list. generalize positive_empty.
  generalize (∅ : Counter). induction l as [|x l IH]; intros c Hc; simpl; [done|].
  apply IH. by apply positive_insert_succ.
Qed.

Lemma count_occ_filter_in (P : ascii -> Prop) `{!forall x, Decision (P x)} l k :
  P k -> count_occ Ascii.ascii_dec (filter P l) k = count_occ Ascii.ascii_dec l k.
Proof.
  intros Hk. induction l as [|x l IH]; [done|].
  rewrite filter_cons. destruct (decide (P x)) as [Hx|Hx]; simpl;
    destruct (Ascii.ascii_dec x k) as [->|Hne]; try done; by rewrite IH.
Qed.

Lemma count_occ_filter_out (P : ascii -> Prop) `{!forall x, Decision (P x)} l k :
  ~ P k -> count_occ Ascii.ascii_dec (filter P l) k = 0%nat.
Proof.
  intros Hk. induction l as [|x l IH]; [done|].
  rewrite filter_cons. destruct (decide (P x)) as [Hx|Hx]; simpl; [|done].
  destruct (Ascii.ascii_dec x k) as [->|Hne]; done.
Qed.

Lemma positive_is_empty c :
  Counter.positive c -> Spec.is_empty c = true -> c = ∅.
Proof.
  intros Hc He. apply bool_decide_eq_true in He. apply map_empty. intros k.
  destruct (c !! k) as [n|] eqn:E; [|done].
  specialize (Hc k n E). specialize (He k n E). simpl in *. lia.
Qed.

Lemma rules_of_text_positive text :
  Forall (fun rule : Psy.Rule => Counter.positive rule.1 /\ Counter.positive rule.2)
    (Psy.rules_of_text text).
Proof.
  unfold Psy.rules_of_text. rewrite Forall_forall. intros rule Hin.
  apply list_elem_of_In, in_flat_map in Hin as (line & _ & Hin).
  apply in_map_iff in Hin as (word & <- & _).
  split; apply positive_of_list.
Qed.

Lemma load_rules_positive fs input_rules rules :
  Psy.load_rules fs input_rules = inr rules ->
  Forall (fun rule : Psy.Rule => Counter.positive rule.1 /\ Counter.positive rule.2)
    rules.
Proof.
  revert rules. induction input_rules as [|fname rest IH]; intros rules E;
    simpl in E.
  - by simplify_eq.
  - destruct (fs !! fname) as [text|]; [|done].
    destruct (Psy.load_rules fs rest) as [e|rules'] ; [done|]. simplify_eq.
    apply Forall_app. split; [apply rules_of_text_positive | by apply IH].
Qed.

Lemma check_rules_false rules rule :
  rule ∈ rules -> rule.1 = ∅ -> Psy.check_rules rules = false.
Proof.
  intros Hin He. unfold Psy.check_rules.
  destruct (forallb _ rules) eqn:F; [|done].
  rewrite forallb_forall in F. apply list_elem_of_In in Hin.
  specialize (F rule Hin). unfold Counter.truth in F. rewrite He in F.
  by rewrite bool_decide_eq_true_2 in F.
Qed.

End Loading.

(** ** The claims *)

Lemma Multiset_read_state input : Spec.Multiset (Psy.read_state input).
Proof. apply positive_Multiset, positive_of_list. Qed.

Lemma rules_of_text_ok text : Forall Sim.rule_ok (Psy.rules_of_text text).
Proof.
  eapply Forall_impl; [apply rules_of_text_positive|].
  intros rule [H1 H2]. split; by apply positive_Multiset.
Qed.

(** C1 (the code departs from the claim under [-l]).  Scenario A, rule [aB]
    on input ["a"]: without [-l] the second pass fires nothing and the run
    returns the cell [b]; with [-l] that same pass raises
    [IncreasingSequence b b] and nothing is returned, on any fuel that lets
    the two passes run. *)
Theorem scenario_A_raises_under_l fuel :
  Psy.run (2 + fuel) Scenario.rules_A Scenario.state_A Scenario.plain
  = {| Psy.ended := Psy.Returned {[ "b"%char := 1 ]};
       Psy.steps := 2; Psy.printed := [] |}
  /\ Psy.run (2 + fuel) Scenario.rules_A Scenario.state_A Scenario.with_l
  = {| Psy.ended :=
         Psy.Raised (Psy.IncreasingSequence {[ "b"%char := 1 ]} {[ "b"%char := 1 ]});
       Psy.steps := 2; Psy.printed := [] |}
  /\ Psy.script (2 + fuel) (Scenario.program "aB") ["program"%string] "a"
       Scenario.with_l
  = ([Psy.PrintError
        (Psy.IncreasingSequence {[ "b"%char := 1 ]} {[ "b"%char := 1 ]})],
     Some 1).
Proof.
  assert (forall opts, Psy.finished (Psy.run 2 Scenario.rules_A Scenario.state_A opts) = true
          -> Psy.run (2 + fuel) Scenario.rules_A Scenario.state_A opts
             = Psy.run 2 Scenario.rules_A Scenario.state_A opts) as More.
  { intros opts H. apply run_more; [done | lia]. }
  split; [|split].
  - rewrite More by (by vm_compute). by vm_compute.
  - rewrite More by (by vm_compute). by vm_compute.
  - unfold Psy.script, Psy.main.
    change (Psy.load_rules _ _) with (Psy.load_rules (Scenario.program "aB") ["program"%string]).
    replace (Psy.load_rules (Scenario.program "aB") ["program"%string])
      with (inr (B:=list Psy.Rule) (A:=Psy.exn) Scenario.rules_A) by (by vm_compute).
    replace (Psy.check_rules Scenario.rules_A) with true by (by vm_compute).
    change (Psy.read_state "a") with Scenario.state_A.
    rewrite More by (by vm_compute). by vm_compute.
Qed.

(** C2, refuted as stated: on input ["A"] the cell is empty, not [{a:1}],
    and differs from the cell read from ["a"]. *)
Lemma uppercase_input_is_dropped :
  Psy.read_state "A" = ∅
  /\ Psy.read_state "a" = {[ "a"%char := 1 ]}
  /\ Psy.read_state "A" <> Psy.read_state "a".
Proof. by vm_compute. Qed.

(** C2, amended: only the lowercase letters a-e count when the cell is read.
    The count of a symbol of [SYMBOLS] is the number of its occurrences in
    the input; every other character, the uppercase letters A-E among them,
    has count zero, and leaving such a character out of the input does not
    change the cell. *)
Theorem read_state_lowercase_only (input : string) (k : ascii) :
  Counter.getitem (Psy.read_state input) k
  = (if bool_decide (k ∈ Psy.SYMBOLS)
     then Z.of_nat (count_occ Ascii.ascii_dec (list_ascii_of_string input) k)
     else 0)
  /\ (k ∈ map Psy.upper Psy.SYMBOLS -> Psy.read_state input !! k = None)
  /\ (k ∉ Psy.SYMBOLS ->
      forall rest, Psy.read_state (String k rest) = Psy.read_state rest).
Proof.
  split; [|split].
  - unfold Psy.read_state. rewrite getitem_of_list. case_bool_decide as Hk.
    + by rewrite count_occ_filter_in.
    + by rewrite count_occ_filter_out.
  - intros Hk. assert (k ∉ Psy.SYMBOLS) as Hn.
    { intros Hin. revert Hk Hin. unfold Psy.SYMBOLS. simpl.
      rewrite !elem_of_cons, !elem_of_nil. intros H1 H2.
      repeat (destruct H1 as [->|H1]; [repeat (destruct H2 as [H2|H2]; try done)|]).
      done. }
    pose proof (positive_of_list
      (filter (fun symbol => symbol ∈ Psy.SYMBOLS) (list_ascii_of_string input))) as P.
    fold (Psy.read_state input) in P.
    rewrite (positive_lookup _ k P).
    unfold Psy.read_state. rewrite getitem_of_list, count_occ_filter_out by done.
    done.
  - intros Hk rest. unfold Psy.read_state. simpl.
    by rewrite filter_cons_False.
Qed.

(** C3: with [-l] the run never returns.  Whatever the rules and the cell,
    no fuel makes [run] return; and in any pass that fires no rule, started
    from the cell that was last appended to [previous_states], the cell is
    left as it was (up to [_keep_positive]), passes the test of line 60
    against that last entry, and the exception is raised before line 64 is
    reached. *)
Theorem detect_loops_never_returns fuel rules state0 opts :
  Psy.detect_loops opts = true ->
  (forall s, Psy.ended (Psy.run fuel rules state0 opts) <> Psy.Returned s)
  /\ (forall s previous_states n out l,
        last previous_states = Some s ->
        Psy.step fuel opts rules s out = (l, true) ->
        Psy.end_ l = true ->
        Psy.state l = Counter.keep_positive s
        /\ (Counter.positive s -> Psy.state l = s)
        /\ Psy.dominates (Psy.state l) s = true
        /\ exists prev, prev ∈ previous_states /\
             Psy.run_loop (S fuel) opts rules s previous_states n out
             = {| Psy.ended := Psy.Raised (Psy.IncreasingSequence prev (Psy.state l));
                  Psy.steps := S n; Psy.printed := Psy.stdout l |}).
Proof.
  intros Hd. split.
  - intros s. apply run_loop_detect_never_returns; [done|]. by rewrite Hd.
  - intros s previous_states n out l Hlast E He.
    destruct (step_end_true _ _ _ _ _ _ E He) as (Hs & _ & _).
    split; [done|]. split; [by intros Hp; rewrite Hs, keep_positive_id|].
    split; [rewrite Hs; apply dominates_keep_positive|].
    by apply run_loop_detect_raises.
Qed.

Lemma detect_loops_never_returns_witness :
  Psy.detect_loops Scenario.with_l = true
  /\ forall s, Psy.ended (Psy.run 5 Scenario.rules_B Scenario.state_B Scenario.with_l)
               <> Psy.Returned s.
Proof.
  split; [reflexivity|].
  apply (detect_loops_never_returns 5 Scenario.rules_B Scenario.state_B Scenario.with_l).
  reflexivity.
Defined.

(** C4: one pass of the program is the specification's step.  On a cell and
    rules that are multisets, and for any fuel, lines 43-57 and the step of
    4.2 (drain each rule in order against [state] alone, collect the
    incoming sides in [pending], add [pending] at the end) come to their end
    together, and then give the same multiset, with [fired] the negation of
    [end].  With rules that each send some symbol out, the pass does come to
    its end once the fuel is large enough. *)
Theorem step_is_spec_step fuel opts rules state0 out :
  Spec.Multiset state0 -> Forall Sim.rule_ok rules ->
  let r := Psy.step fuel opts rules state0 out in
  let r' := Spec.step fuel rules state0 in
  r.2 = r'.2
  /\ (r.2 = true ->
      Spec.same (Psy.state r.1) r'.1.1 /\ r'.1.2 = negb (Psy.end_ r.1))
  /\ (Forall Sim.rule_valid rules ->
      exists bound, forall fuel', (bound <= fuel')%nat ->
        (Psy.step fuel' opts rules state0 out).2 = true).
Proof.
  intros Hs Hr. cbv zeta. unfold Psy.step, Spec.step.
  set (l0 := {| Psy.state := state0; Psy.to_add := ∅; Psy.end_ := true;
                Psy.stdout := Psy.print_if (Psy.verbose opts)
                                (Psy.PrintState state0) out |}).
  destruct (Psy.for_rules fuel opts rules l0) as [l fin] eqn:E1.
  destruct (Spec.scan _ _ _ _ _) as [[[s p] fired] fin'] eqn:E2.
  assert (Sim.refines l0 state0 ∅ false) as R0 by done.
  pose proof (for_rules_refines fuel opts rules l0 state0 ∅ false Hr Hs
                (map_Forall_empty _) R0 _ _ _ _ _ _ E1 E2)
    as (<- & (R1 & R2 & R3) & Hs1 & Ht1).
  split; [by destruct fin|]. split.
  - destruct fin; simpl; [|done]. intros _. split; [|done].
    intros k. rewrite getitem_spec_add, <- (R1 k), <- (R2 k).
    by apply iadd_exact.
  - intros Hv. by apply step_total.
Qed.

Lemma step_is_spec_step_witness :
  Spec.Multiset Scenario.state_B /\ Forall Sim.rule_ok Scenario.rules_B
  /\ (Psy.step 3 Scenario.with_v Scenario.rules_B Scenario.state_B []).2
     = (Spec.step 3 Scenario.rules_B Scenario.state_B).2.
Proof.
  split; [apply Multiset_read_state|]. split; [apply rules_of_text_ok|].
  exact (proj1 (step_is_spec_step 3 Scenario.with_v Scenario.rules_B
                  Scenario.state_B [] (Multiset_read_state _)
                  (rules_of_text_ok _))).
Defined.

Lemma find_first {A} (f : A -> bool) (h1 : list A) (x : A) (h2 : list A) :
  Forall (fun p => f p = false) h1 -> f x = true ->
  find f (h1 ++ x :: h2) = Some x.
Proof.
  induction 1 as [|y h1 Hy _ IH]; intros Hx; simpl; [by rewrite Hx|].
  rewrite Hy. by apply IH.
Qed.

Lemma find_all_false {A} (f : A -> bool) (h : list A) :
  Forall (fun p => f p = false) h -> find f h = None.
Proof. induction 1 as [|y h Hy _ IH]; simpl; [done|]. by rewrite Hy. Qed.

Lemma step_state_positive fuel opts rules s out l :
  Psy.step fuel opts rules s out = (l, true) -> Counter.positive (Psy.state l).
Proof.
  unfold Psy.step. destruct (Psy.for_rules _ _ _ _) as [l1 [|]]; [|done].
  intros [= <-]. apply positive_iadd.
Qed.

(** C5: the loop detector.  Under [-l], [run] starts the loop with
    [previous_states] holding the initial cell.  After a completed pass that
    gives [state'], the entries of [previous_states] are tried in order: the
    first [prev] that [state'] contains is raised together with [state'];
    when [state'] contains none of them it is appended and the loop goes on
    from [state'].  ([previous_states] ends with the cell the pass started
    from: so it is when [run] seeds it, and so it is again after the
    append.) *)
Theorem loop_detector_contract fuel opts rules s previous_states n out :
  Psy.detect_loops opts = true ->
  Forall Spec.Multiset previous_states ->
  last previous_states = Some s ->
  (Psy.step fuel opts rules s out).2 = true ->
  let state' := Psy.state (Psy.step fuel opts rules s out).1 in
  let out' := Psy.stdout (Psy.step fuel opts rules s out).1 in
  (forall fuel0 state0,
     Psy.run fuel0 rules state0 opts
     = Psy.run_loop fuel0 opts rules state0 [state0] 0 [])
  /\ (forall h1 prev h2,
        previous_states = h1 ++ prev :: h2 ->
        Forall (fun p => Spec.contains state' p = false) h1 ->
        Spec.contains state' prev = true ->
        Psy.run_loop (S fuel) opts rules s previous_states n out
        = {| Psy.ended := Psy.Raised (Psy.IncreasingSequence prev state');
             Psy.steps := S n; Psy.printed := out' |})
  /\ (Forall (fun p => Spec.contains state' p = false) previous_states ->
      Psy.run_loop (S fuel) opts rules s previous_states n out
      = Psy.run_loop fuel opts rules state' (previous_states ++ [state']) (S n) out'
      /\ last (previous_states ++ [state']) = Some state'
      /\ Forall Spec.Multiset (previous_states ++ [state'])).
Proof.
  intros Hd Hp Hlast Hfin. cbv zeta.
  destruct (Psy.step fuel opts rules s out) as [l fin] eqn:E.
  simpl in *. subst fin.
  pose proof (positive_Multiset _ (step_state_positive _ _ _ _ _ _ E)) as Hl.
  assert (forall h, Forall Spec.Multiset h ->
            Forall (fun p => Spec.contains (Psy.state l) p = false) h ->
            Forall (fun p => Psy.dominates (Psy.state l) p = false) h) as Conv.
  { intros h Hh Hc. rewrite Forall_forall in *. intros p Hin.
    rewrite dominates_contains; auto. }
  split; [|split].
  - intros fuel0 state0. unfold Psy.run. by rewrite Hd.
  - intros h1 prev h2 -> Hh1 Hprev.
    apply Forall_app in Hp as [Hp1 Hp2]. apply Forall_cons in Hp2 as [Hpp _].
    rewrite E, Hd. rewrite (find_first _ h1 prev h2); [done | by apply Conv |].
    by rewrite dominates_contains.
  - intros Hnone. rewrite E, Hd.
    rewrite (find_all_false _ previous_states) by (by apply Conv).
    destruct (Psy.end_ l) eqn:He.
    + exfalso.
      destruct (step_end_true _ _ _ _ _ _ E He) as (Hs & _ & _).
      apply last_Some in Hlast as [h ->].
      apply Forall_app in Hnone as [_ Hn]. apply Forall_cons in Hn as [Hn _].
      apply Forall_app in Hp as [_ Hp]. apply Forall_cons in Hp as [Hp _].
      assert (Psy.dominates (Psy.state l) s = true) as D
        by (rewrite Hs; apply dominates_keep_positive).
      rewrite dominates_contains in D by done. congruence.
    + unfold Counter.copy. split; [done|]. split; [by rewrite last_snoc|].
      apply Forall_app. split; [done|]. by constructor.
Qed.

Lemma loop_detector_contract_witness :
  Psy.detect_loops Scenario.with_l = true
  /\ last [Scenario.state_A] = Some Scenario.state_A
  /\ Psy.run_loop 2 Scenario.with_l Scenario.rules_A Scenario.state_A
       [Scenario.state_A] 0 []
     = Psy.run_loop 1 Scenario.with_l Scenario.rules_A
         (Psy.state (Psy.step 1 Scenario.with_l Scenario.rules_A Scenario.state_A []).1)
         ([Scenario.state_A]
          ++ [Psy.state (Psy.step 1 Scenario.with_l Scenario.rules_A Scenario.state_A []).1])
         1
         (Psy.stdout (Psy.step 1 Scenario.with_l Scenario.rules_A Scenario.state_A []).1).
Proof.
  split; [reflexivity|]. split; [reflexivity|].
  refine (proj1 (proj2 (proj2 (loop_detector_contract 1 Scenario.with_l
    Scenario.rules_A Scenario.state_A [Scenario.state_A] 0 [] _ _ _ _)) _)).
  - reflexivity.
  - constructor; [apply Multiset_read_state | constructor].
  - reflexivity.
  - vm_compute. reflexivity.
  - constructor; [vm_compute; reflexivity | constructor].
Defined.

(** C6: for multisets [a] and [b], if [a] contains [b] then taking [b] out
    and putting it back gives [a]: for the expression the program tests
    ([a - b + b == a]), for the in-place operations it then performs, and
    for the operations as the specification words them; on Counters without
    zero entries the equality is that of the dicts. *)
Theorem contains_add_subtract (a b : Counter) :
  Spec.Multiset a -> Spec.Multiset b ->
  Spec.contains a b = true ->
  Counter.eq (Counter.add (Counter.sub a b) b) a = true
  /\ Spec.same (Counter.iadd (Counter.isub a b) b) a
  /\ Spec.same (Spec.add (Spec.subtract a b) b) a
  /\ (Counter.positive a -> Counter.add (Counter.sub a b) b = a).
Proof.
  intros Ha Hb Hc.
  assert (forall k, Counter.getitem b k <= Counter.getitem a k
                    /\ 0 <= Counter.getitem b k) as Hk.
  { intros k. destruct (contains_ge a b) as [C _]. specialize (C Hc k).
    pose proof (Multiset_getitem b k Hb). lia. }
  assert (Spec.same (Counter.add (Counter.sub a b) b) a) as Hsame.
  { intros k. rewrite getitem_add, getitem_sub. specialize (Hk k). lia. }
  split; [by apply eq_same|]. split; [|split].
  - intros k. rewrite getitem_iadd, getitem_isub. specialize (Hk k). lia.
  - intros k. rewrite getitem_spec_add, getitem_subtract. lia.
  - intros Hp. apply positive_ext; [apply positive_add | done | done].
Qed.

Lemma contains_add_subtract_witness :
  Spec.contains Scenario.state_B (Psy.read_state "aa") = true
  /\ Counter.add (Counter.sub Scenario.state_B (Psy.read_state "aa"))
       (Psy.read_state "aa") = Scenario.state_B.
Proof.
  split; [vm_compute; reflexivity|].
  refine (proj2 (proj2 (proj2 (contains_add_subtract Scenario.state_B
    (Psy.read_state "aa") _ _ _))) _).
  - apply Multiset_read_state.
  - apply Multiset_read_state.
  - vm_compute. reflexivity.
  - apply positive_of_list.
Defined.

(** C7: a rule without outgoing symbols is rejected before anything runs.
    Once the files are read, if some rule has an empty outgoing multiset
    then [main] raises [InvalidRule] with no pass made and nothing printed,
    whatever the other rules, the input, the options and the fuel; the
    script prints the message and exits with code 1. *)
Theorem empty_outgoing_is_invalid fuel fs input_rules input_state opts rules rule :
  Psy.load_rules fs input_rules = inr rules ->
  rule ∈ rules ->
  Spec.is_empty rule.1 = true ->
  Psy.main fuel fs input_rules input_state opts
  = {| Psy.ended := Psy.Raised Psy.InvalidRule; Psy.steps := 0; Psy.printed := [] |}
  /\ Psy.script fuel fs input_rules input_state opts
     = ([Psy.PrintError Psy.InvalidRule], Some 1).
Proof.
  intros Hload Hin He.
  assert (rule.1 = ∅) as He'.
  { apply positive_is_empty; [|done].
    pose proof (load_rules_positive _ _ _ Hload) as Hp.
    rewrite Forall_forall in Hp. by destruct (Hp rule Hin). }
  assert (Psy.main fuel fs input_rules input_state opts
          = {| Psy.ended := Psy.Raised Psy.InvalidRule; Psy.steps := 0;
               Psy.printed := [] |}) as Hmain.
  { unfold Psy.main. by rewrite Hload, (check_rules_false rules rule Hin He'). }
  split; [done|]. unfold Psy.script. by rewrite Hmain.
Qed.

Lemma empty_outgoing_is_invalid_witness :
  Psy.load_rules (Scenario.program "aB ABC") ["program"%string]
  = inr (Psy.rules_of_text "aB ABC")
  /\ Psy.script 9 (Scenario.program "aB ABC") ["program"%string] "abcde" Scenario.plain
     = ([Psy.PrintError Psy.InvalidRule], Some 1).
Proof.
  split; [vm_compute; reflexivity|].
  refine (proj2 (empty_outgoing_is_invalid 9 (Scenario.program "aB ABC")
    ["program"%string] "abcde" Scenario.plain (Psy.rules_of_text "aB ABC")
    (Psy.rule_of_word (list_ascii_of_string "ABC")) _ _ _)).
  - vm_compute. reflexivity.
  - apply list_elem_of_In. right. left. vm_compute. reflexivity.
  - vm_compute. reflexivity.
Defined.

(** C9: counts never go below zero.  From a cell and rules that are
    multisets, every Counter a run shows (printed, returned, raised, or the
    cell when the fuel runs out) has all counts >= 0, for every fuel.  A rule
    is applied only when the cell contains its outgoing side, and then
    [state -= outgoing] is the exact difference, which is not negative; a
    rule whose outgoing side is not contained leaves the cell alone. *)
Theorem counts_never_negative fuel rules state0 opts :
  Spec.Multiset state0 -> Forall Sim.rule_ok rules ->
  Forall Spec.Multiset (Psy.observable (Psy.run fuel rules state0 opts))
  /\ (forall l outgoing incoming,
        Spec.Multiset (Psy.state l) -> Spec.Multiset outgoing ->
        if Spec.contains (Psy.state l) outgoing
        then Psy.apply_rule (S fuel) opts outgoing incoming l
             = Psy.apply_rule fuel opts outgoing incoming
                 {| Psy.state := Counter.isub (Psy.state l) outgoing;
                    Psy.to_add := Counter.iadd (Psy.to_add l) incoming;
                    Psy.end_ := false;
                    Psy.stdout := Psy.print_if (Psy.verbose opts)
                      (Psy.PrintRule outgoing incoming) (Psy.stdout l) |}
             /\ forall k,
                  Counter.getitem (Counter.isub (Psy.state l) outgoing) k
                  = Counter.getitem (Psy.state l) k - Counter.getitem outgoing k
                  /\ 0 <= Counter.getitem (Psy.state l) k - Counter.getitem outgoing k
        else Psy.apply_rule fuel opts outgoing incoming l = (l, true)).
Proof.
  intros Hs Hr. split.
  - apply run_loop_ok; [done | done | | by constructor].
    destruct (Psy.detect_loops opts); by repeat constructor.
  - intros l outgoing incoming Hl Ho.
    rewrite <- (dominates_contains _ _ Hl Ho).
    destruct (Psy.dominates (Psy.state l) outgoing) eqn:D.
    + split; [by rewrite (apply_rule_unfold (S fuel)), D|].
      intros k. by apply isub_exact.
    + by rewrite apply_rule_unfold, D.
Qed.

Lemma counts_never_negative_witness :
  Spec.Multiset Scenario.state_B
  /\ Forall Spec.Multiset
       (Psy.observable (Psy.run 4 Scenario.rules_B Scenario.state_B Scenario.with_v)).
Proof.
  split; [apply Multiset_read_state|].
  exact (proj1 (counts_never_negative 4 Scenario.rules_B Scenario.state_B
                  Scenario.with_v (Multiset_read_state _) (rules_of_text_ok _))).
Defined.

(** C10: Scenario B.  The token [aaB] is the rule ({a:2}, {b:1}) and the
    input ["aaaa"] the cell {a:4}.  The first pass applies the rule twice and
    leaves {b:2}; the second pass applies nothing; the run returns {b:2}
    after two passes, printed as ["bb"].  This holds on every fuel of three
    or more, with or without [-v]. *)
Theorem scenario_B fuel v :
  let opts := {| Psy.verbose := v; Psy.detect_loops := false |} in
  Scenario.rules_B = [({[ "a"%char := 2 ]}, {[ "b"%char := 1 ]})]
  /\ Scenario.state_B = {[ "a"%char := 4 ]}
  /\ Psy.step (2 + fuel) Scenario.with_v Scenario.rules_B Scenario.state_B []
     = ({| Psy.state := {[ "b"%char := 2 ]};
           Psy.to_add := {[ "b"%char := 2 ]};
           Psy.end_ := false;
           Psy.stdout :=
             [Psy.PrintState {[ "a"%char := 4 ]};
              Psy.PrintRule {[ "a"%char := 2 ]} {[ "b"%char := 1 ]};
              Psy.PrintRule {[ "a"%char := 2 ]} {[ "b"%char := 1 ]}] |}, true)
  /\ Psy.step fuel Scenario.with_v Scenario.rules_B {[ "b"%char := 2 ]} []
     = ({| Psy.state := {[ "b"%char := 2 ]};
           Psy.to_add := ∅;
           Psy.end_ := true;
           Psy.stdout := [Psy.PrintState {[ "b"%char := 2 ]}] |}, true)
  /\ Psy.ended (Psy.run (3 + fuel) Scenario.rules_B Scenario.state_B opts)
     = Psy.Returned {[ "b"%char := 2 ]}
  /\ Psy.steps (Psy.run (3 + fuel) Scenario.rules_B Scenario.state_B opts) = 2%nat
  /\ Counter.repr {[ "b"%char := 2 ]} = "bb"%string
  /\ Psy.script (3 + fuel) (Scenario.program "aaB") ["program"%string] "aaaa"
       Scenario.plain
     = ([Psy.PrintState {[ "b"%char := 2 ]}], Some 0).
Proof.
  cbv zeta.
  assert (forall opts,
            Psy.finished (Psy.run 3 Scenario.rules_B Scenario.state_B opts) = true ->
            Psy.run (3 + fuel) Scenario.rules_B Scenario.state_B opts
            = Psy.run 3 Scenario.rules_B Scenario.state_B opts) as More.
  { intros opts H. apply run_more; [done | lia]. }
  split; [by vm_compute|]. split; [by vm_compute|]. split.
  { apply (step_more 2); [by vm_compute | lia]. }
  split.
  { apply (step_more 0); [by vm_compute | lia]. }
  split; [destruct v; rewrite More by (by vm_compute); by vm_compute|].
  split; [destruct v; rewrite More by (by vm_compute); by vm_compute|].
  split; [by vm_compute|].
  unfold Psy.script, Psy.main.
  replace (Psy.load_rules (Scenario.program "aaB") ["program"%string])
    with (inr (B:=list Psy.Rule) (A:=Psy.exn) Scenario.rules_B) by (by vm_compute).
  replace (Psy.check_rules Scenario.rules_B) with true by (by vm_compute).
  change (Psy.read_state "aaaa") with Scenario.state_B.
  rewrite More by (by vm_compute). by vm_compute.
Qed.

(** * Further properties of the program *)

(** ** The variables of a pass do not depend on the options *)
Section Verbose.
Implicit Types (l : Psy.locals) (rules : list Psy.Rule).

Lemma apply_rule_verbose fuel v1 v2 d1 d2 outgoing incoming l1 l2 :
  Psy.state l1 = Psy.state l2 -> Psy.to_add l1 = Psy.to_add l2 ->
  Psy.end_ l1 = Psy.end_ l2 ->
  let r1 := Psy.apply_rule fuel {| Psy.verbose := v1; Psy.detect_loops := d1 |}
              outgoing incoming l1 in
  let r2 := Psy.apply_rule fuel {| Psy.verbose := v2; Psy.detect_loops := d2 |}
              outgoing incoming l2 in
  Psy.state r1.1 = Psy.state r2.1 /\ Psy.to_add r1.1 = Psy.to_add r2.1
  /\ Psy.end_ r1.1 = Psy.end_ r2.1 /\ r1.2 = r2.2.
Proof.
  revert l1 l2. induction fuel as [|fuel IH]; intros l1 l2 Hs Ht He; cbv zeta;
    rewrite (apply_rule_unfold _ _ _ _ l1), (apply_rule_unfold _ _ _ _ l2), Hs;
    destruct (Psy.dominates (Psy.state l2) outgoing); try (by simpl).
  apply IH; simpl; congruence.
Qed.

Lemma for_rules_verbose fuel v1 v2 d1 d2 rules l1 l2 :
  Psy.state l1 = Psy.state l2 -> Psy.to_add l1 = Psy.to_add l2 ->
  Psy.end_ l1 = Psy.end_ l2 ->
  let r1 := Psy.for_rules fuel {| Psy.verbose := v1; Psy.detect_loops := d1 |} rules l1 in
  let r2 := Psy.for_rules fuel {| Psy.verbose := v2; Psy.detect_loops := d2 |} rules l2 in
  Psy.state r1.1 = Psy.state r2.1 /\ Psy.to_add r1.1 = Psy.to_add r2.1
  /\ Psy.end_ r1.1 = Psy.end_ r2.1 /\ r1.2 = r2.2.
Proof.
  revert l1 l2. induction rules as [|[outgoing incoming] rest IH];
    intros l1 l2 Hs Ht He; cbv zeta; simpl; [done|].
  pose proof (apply_rule_verbose fuel v1 v2 d1 d2 outgoing incoming l1 l2 Hs Ht He)
    as (H1 & H2 & H3 & H4). cbv zeta in *.
  destruct (Psy.apply_rule fuel {| Psy.verbose := v1; Psy.detect_loops := d1 |} _ _ l1)
    as [l1' f1].
  destruct (Psy.apply_rule fuel {| Psy.verbose := v2; Psy.detect_loops := d2 |} _ _ l2)
    as [l2' f2].
  simpl in *. subst f2. destruct f1; [by apply IH | done].
Qed.

Lemma step_verbose fuel v1 v2 d1 d2 rules s out1 out2 :
  let r1 := Psy.step fuel {| Psy.verbose := v1; Psy.detect_loops := d1 |} rules s out1 in
  let r2 := Psy.step fuel {| Psy.verbose := v2; Psy.detect_loops := d2 |} rules s out2 in
  Psy.state r1.1 = Psy.state r2.1 /\ Psy.end_ r1.1 = Psy.end_ r2.1 /\ r1.2 = r2.2.
Proof.
  cbv zeta. unfold Psy.step.
  match goal with |- context [Psy.for_rules fuel ?o1 rules ?l1] =>
    match goal with |- context [Psy.for_rules fuel ?o2 rules ?l2] =>
      lazymatch o1 with
      | o2 => fail
      | _ => pose proof (for_rules_verbose fuel v1 v2 d1 d2 rules l1 l2
                           eq_refl eq_refl eq_refl) as (H1 & H2 & H3 & H4);
             cbv zeta in *;
             destruct (Psy.for_rules fuel o1 rules l1) as [l1' f1];
             destruct (Psy.for_rules fuel o2 rules l2) as [l2' f2]
      end
    end
  end.
  simpl in *. subst f2. destruct f1; simpl; [|done]. by rewrite H1, H2.
Qed.

End Verbose.

(** ** Where [run] raises, and when it does not end *)
Section Outcomes.
Implicit Types (opts : Psy.Options) (l : Psy.locals) (rules : list Psy.Rule).

Lemma run_loop_raised fuel opts rules s previous_states n out e :
  Psy.ended (Psy.run_loop fuel opts rules s previous_states n out) = Psy.Raised e ->
  Psy.detect_loops opts = true
  /\ exists prev st, e = Psy.IncreasingSequence prev st
       /\ Psy.dominates st prev = true
       /\ (Forall Spec.Multiset previous_states -> Spec.contains st prev = true).
Proof.
  revert s previous_states n out.
  induction fuel as [|fuel IH]; intros s previous_states n out; [done|]. simpl.
  destruct (Psy.step fuel opts rules s out) as [l [|]] eqn:E; [|done].
  destruct (Psy.detect_loops opts) eqn:Hd.
  - destruct (find _ previous_states) as [prev|] eqn:F.
    + simpl. intros [= <-]. split; [done|]. exists prev, (Psy.state l).
      apply find_some in F as [Hin D]. split; [done|]. split; [done|].
      intros Hp. rewrite Forall_forall in Hp.
      rewrite <- dominates_contains; [done | |].
      * apply positive_Multiset. by eapply step_state_positive.
      * apply Hp. by apply list_elem_of_In.
    + destruct (Psy.end_ l); [done|]. intros H.
      destruct (IH _ _ _ _ H) as (_ & prev & st & -> & D & C).
      split; [done|]. exists prev, st. split; [done|]. split; [done|].
      intros Hp. apply C. apply Forall_app. split; [done|]. constructor; [|done].
      apply positive_Multiset. by eapply step_state_positive.
  - destruct (Psy.end_ l); [done|]. intros H.
    by destruct (IH _ _ _ _ H) as (? & _).
Qed.








End Outcomes.

(** ** The cell a run returns *)
Section NormalForm.
Implicit Types (opts : Psy.Options) (l : Psy.locals) (rules : list Psy.Rule).

(** The test looks at the counts only. *)
Lemma dominates_same (a a' b : Counter) :
  Spec.same a a' -> Psy.dominates a b = Psy.dominates a' b.
Proof.
  intros Ha. apply eq_true_iff_eq.
  destruct (dominates_getitem a b) as [A1 A2], (dominates_getitem a' b) as [B1 B2].
  split; intros H; [apply B2 | apply A2]; intros k;
    [rewrite <- (Ha k) | rewrite (Ha k)]; auto.
Qed.

Lemma keep_positive_same (s : Counter) :
  Spec.Multiset s -> Spec.same (Counter.keep_positive s) s.
Proof.
  intros Hs k. rewrite getitem_keep_positive.
  pose proof (Multiset_getitem s k Hs). lia.
Qed.

Lemma run_loop_returned fuel opts rules s previous_states n out s' :
  Spec.Multiset s ->
  Psy.ended (Psy.run_loop fuel opts rules s previous_states n out) = Psy.Returned s' ->
  Counter.positive s'
  /\ Forall (fun rule => Psy.dominates s' rule.1 = false) rules.
Proof.
  revert s previous_states n out.
  induction fuel as [|fuel IH]; intros s previous_states n out Hs; [done|]. simpl.
  destruct (Psy.step fuel opts rules s out) as [l [|]] eqn:E; [|done].
  pose proof (step_state_positive _ _ _ _ _ _ E) as Hl.
  destruct (if Psy.detect_loops opts then _ else _); [done|].
  destruct (Psy.end_ l) eqn:He.
  - simpl. intros [= <-]. split; [done|].
    destruct (step_end_true _ _ _ _ _ _ E He) as (-> & _ & Hr).
    eapply Forall_impl; [exact Hr|]. intros rule D. simpl in *.
    by rewrite (dominates_same _ s _ (keep_positive_same s Hs)).
  - apply IH. by apply positive_Multiset.
Qed.

(** X4: the cell that [run] returns is one to which no rule applies.  From
    an initial cell that is a multiset, if the run returns [s'] then [-l]
    was off, [s'] has no zero or negative entry, and for every rule the test
    of line 49 fails on [s']; for rules made of multisets this says that
    [s'] contains no rule's outgoing side. *)
Theorem returned_cell_is_normal_form fuel rules state0 opts s' :
  Spec.Multiset state0 ->
  Psy.ended (Psy.run fuel rules state0 opts) = Psy.Returned s' ->
  Psy.detect_loops opts = false
  /\ Counter.positive s'
  /\ Forall (fun rule => Psy.dominates s' rule.1 = false) rules
  /\ (Forall Sim.rule_ok rules ->
      Forall (fun rule => Spec.contains s' rule.1 = false) rules).
Proof.
  intros Hs H. unfold Psy.run in H.
  destruct (run_loop_returned _ _ _ _ _ _ _ _ Hs H) as [Hp Hr].
  split.
  { destruct (Psy.detect_loops opts) eqn:Hd; [|done]. exfalso.
    by eapply (run_loop_detect_never_returns fuel opts rules state0
                 [Counter.copy state0] 0 [] s' Hd). }
  split; [done|]. split; [done|]. intros Hok.
  rewrite Forall_forall in *. intros rule Hin.
  rewrite <- dominates_contains; [by apply Hr | by apply positive_Multiset |].
  by destruct (Hok rule Hin).
Qed.

Lemma returned_cell_is_normal_form_witness :
  Psy.ended (Psy.run 3 Scenario.rules_B Scenario.state_B Scenario.plain)
  = Psy.Returned {[ "b"%char := 2 ]}
  /\ Forall (fun rule : Psy.Rule =>
               Psy.dominates {[ "b"%char := 2 ]} rule.1 = false) Scenario.rules_B.
Proof.
  split; [vm_compute; reflexivity|].
  refine (proj1 (proj2 (proj2 (returned_cell_is_normal_form 3 Scenario.rules_B
    Scenario.state_B Scenario.plain {[ "b"%char := 2 ]} _ _)))).
  - apply Multiset_read_state.
  - vm_compute. reflexivity.
Defined.



Lemma run_loop_steps_ge fuel opts rules s previous_states n out :
  (n <= Psy.steps (Psy.run_loop fuel opts rules s previous_states n out))%nat.
Proof.
  revert s previous_states n out.
  induction fuel as [|fuel IH]; intros s previous_states n out; [done|]. simpl.
  destruct (Psy.step fuel opts rules s out) as [l [|]]; [|done].
  destruct (if Psy.detect_loops opts then _ else _); [simpl; lia|].
  destruct (Psy.end_ l); [simpl; lia|].
  etrans; [|apply IH]. lia.
Qed.

Lemma run_loop_detect_no_later fuel v rules s hist hist' n out out' s' :
  last hist = Some s ->
  Psy.ended (Psy.run_loop fuel {| Psy.verbose := v; Psy.detect_loops := false |}
               rules s hist' n out') = Psy.Returned s' ->
  exists prev st,
    Psy.ended (Psy.run_loop fuel {| Psy.verbose := v; Psy.detect_loops := true |}
                 rules s hist n out)
    = Psy.Raised (Psy.IncreasingSequence prev st)
    /\ (Psy.steps (Psy.run_loop fuel {| Psy.verbose := v; Psy.detect_loops := true |}
                     rules s hist n out)
        <= Psy.steps (Psy.run_loop fuel {| Psy.verbose := v; Psy.detect_loops := false |}
                        rules s hist' n out'))%nat.
Proof.
  revert s hist hist' n out out'.
  induction fuel as [|fuel IH]; intros s hist hist' n out out' Hlast; [done|].
  pose proof (step_verbose fuel v v true false rules s out out') as (H1 & H2 & H3).
  cbv zeta in H1, H2, H3.
  destruct (Psy.step fuel {| Psy.verbose := v; Psy.detect_loops := true |} rules s out)
    as [l1 f1] eqn:E1.
  destruct (Psy.step fuel {| Psy.verbose := v; Psy.detect_loops := false |} rules s out')
    as [l2 f2] eqn:E2.
  simpl in H1, H2, H3. subst f2.
  destruct f1; [|by simpl; rewrite E2].
  destruct (Psy.end_ l1) eqn:He.
  - intros _.
    destruct (run_loop_detect_raises fuel
                {| Psy.verbose := v; Psy.detect_loops := true |}
                rules s hist n out l1 eq_refl Hlast E1 He)
      as (prev & _ & ->).
    exists prev, (Psy.state l1). split; [done|].
    simpl. rewrite E2. simpl. rewrite <- H2. simpl. lia.
  - simpl. rewrite E1, E2. simpl. rewrite <- H2, He.
    destruct (find _ hist) as [prev|].
    + intros H. exists prev, (Psy.state l1). split; [done|]. simpl.
      etrans; [|apply run_loop_steps_ge]. lia.
    + rewrite <- H1. apply IH. unfold Counter.copy. by rewrite last_snoc.
Qed.

(** X6: [-l] never lets a run go on for longer.  If the run without [-l]
    returns, then on the same rules, cell, fuel and [-v] the run with [-l]
    raises, after no more passes than the other one made. *)
Theorem detect_loops_ends_no_later fuel v rules state0 s' :
  let plain := Psy.run fuel rules state0 {| Psy.verbose := v; Psy.detect_loops := false |} in
  let checked := Psy.run fuel rules state0 {| Psy.verbose := v; Psy.detect_loops := true |} in
  Psy.ended plain = Psy.Returned s' ->
  exists prev st,
    Psy.ended checked = Psy.Raised (Psy.IncreasingSequence prev st)
    /\ (Psy.steps checked <= Psy.steps plain)%nat.
Proof.
  cbv zeta. unfold Psy.run. simpl. intros H.
  exact (run_loop_detect_no_later fuel v rules state0 [Counter.copy state0] []
           0%nat [] [] s' eq_refl H).
Qed.

Lemma detect_loops_ends_no_later_witness :
  Psy.ended (Psy.run 3 Scenario.rules_B Scenario.state_B
               {| Psy.verbose := false; Psy.detect_loops := false |})
  = Psy.Returned {[ "b"%char := 2 ]}
  /\ exists prev st,
       Psy.ended (Psy.run 3 Scenario.rules_B Scenario.state_B
                    {| Psy.verbose := false; Psy.detect_loops := true |})
       = Psy.Raised (Psy.IncreasingSequence prev st)
       /\ (Psy.steps (Psy.run 3 Scenario.rules_B Scenario.state_B
                        {| Psy.verbose := false; Psy.detect_loops := true |})
           <= Psy.steps (Psy.run 3 Scenario.rules_B Scenario.state_B
                           {| Psy.verbose := false; Psy.detect_loops := false |}))%nat.
Proof.
  split; [vm_compute; reflexivity|].
  refine (detect_loops_ends_no_later 3 false Scenario.rules_B Scenario.state_B
            {[ "b"%char := 2 ]} _).
  vm_compute. reflexivity.
Defined.

End NormalForm.

(** ** What a pass takes and gives *)
Section Passes.
Implicit Types (opts : Psy.Options) (l : Psy.locals) (rules : list Psy.Rule).

Lemma total_snoc f out e : Account.total f (out ++ [e]) = Account.total f out + f e.
Proof.
  unfold Account.total. induction out as [|x out IH]; simpl; [lia|].
  rewrite IH. lia.
Qed.

(** Both components of the variables of a pass stay multisets. *)
Lemma for_rules_Multiset fuel opts rules l :
  Forall Sim.rule_ok rules ->
  Spec.Multiset (Psy.state l) -> Spec.Multiset (Psy.to_add l) ->
  Spec.Multiset (Psy.state (Psy.for_rules fuel opts rules l).1)
  /\ Spec.Multiset (Psy.to_add (Psy.for_rules fuel opts rules l).1).
Proof.
  intros Hr Hs Ht.
  destruct (Psy.for_rules fuel opts rules l) as [l' fin] eqn:E1.
  destruct (Spec.scan fuel rules (Psy.state l) (Psy.to_add l) (negb (Psy.end_ l)))
    as [[[s p] fired] fin'] eqn:E2.
  assert (Sim.refines l (Psy.state l) (Psy.to_add l) (negb (Psy.end_ l))) as R by done.
  by destruct (for_rules_refines _ _ _ _ _ _ _ Hr Hs Ht R _ _ _ _ _ _ E1 E2)
    as (_ & _ & ? & ?).
Qed.

Lemma apply_rule_account fuel d outgoing incoming l k :
  Spec.Multiset outgoing -> Spec.Multiset incoming ->
  Spec.Multiset (Psy.state l) -> Spec.Multiset (Psy.to_add l) ->
  let l' := (Psy.apply_rule fuel {| Psy.verbose := true; Psy.detect_loops := d |}
               outgoing incoming l).1 in
  Counter.getitem (Psy.state l') k + Account.total (Account.taken k) (Psy.stdout l')
  = Counter.getitem (Psy.state l) k + Account.total (Account.taken k) (Psy.stdout l)
  /\ Counter.getitem (Psy.to_add l') k - Account.total (Account.given k) (Psy.stdout l')
     = Counter.getitem (Psy.to_add l) k - Account.total (Account.given k) (Psy.stdout l).
Proof.
  intros Ho Hi. revert l.
  induction fuel as [|fuel IH]; intros l Hs Ht; cbv zeta; rewrite apply_rule_unfold;
    destruct (Psy.dominates (Psy.state l) outgoing) eqn:D; try done.
  match goal with |- context [Psy.apply_rule fuel ?o outgoing incoming ?l1] =>
    destruct (IH l1) as [A B] end.
  { simpl. apply positive_Multiset, positive_isub. }
  { simpl. apply positive_Multiset, positive_iadd. }
  rewrite A, B. simpl. rewrite !total_snoc. simpl.
  destruct (isub_exact _ _ k Hs Ho D) as [-> _].
  rewrite (iadd_exact _ _ k Ht Hi). lia.
Qed.

Lemma for_rules_account fuel d rules l k :
  Forall Sim.rule_ok rules ->
  Spec.Multiset (Psy.state l) -> Spec.Multiset (Psy.to_add l) ->
  let l' := (Psy.for_rules fuel {| Psy.verbose := true; Psy.detect_loops := d |}
               rules l).1 in
  Counter.getitem (Psy.state l') k + Account.total (Account.taken k) (Psy.stdout l')
  = Counter.getitem (Psy.state l) k + Account.total (Account.taken k) (Psy.stdout l)
  /\ Counter.getitem (Psy.to_add l') k - Account.total (Account.given k) (Psy.stdout l')
     = Counter.getitem (Psy.to_add l) k - Account.total (Account.given k) (Psy.stdout l).
Proof.
  intros Hr. revert l.
  induction Hr as [|[outgoing incoming] rest [Ho Hi] Hrest IH]; intros l Hs Ht;
    cbv zeta; simpl; [done|].
  pose proof (apply_rule_account fuel d outgoing incoming l k Ho Hi Hs Ht) as [A B].
  pose proof (for_rules_Multiset fuel {| Psy.verbose := true; Psy.detect_loops := d |}
                [(outgoing, incoming)] l) as M.
  simpl in M.
  destruct (Psy.apply_rule _ _ outgoing incoming l) as [l1 [|]]; simpl in *; [|done].
  destruct M as [Ms Mt]; [by repeat constructor | done | done |].
  destruct (IH l1 Ms Mt) as [A' B']. cbv zeta in *. by rewrite A', B'.
Qed.

Lemma step_account fuel d rules s out l k :
  Spec.Multiset s -> Forall Sim.rule_ok rules ->
  Psy.step fuel {| Psy.verbose := true; Psy.detect_loops := d |} rules s out = (l, true) ->
  Counter.getitem (Psy.state l) k
  = Counter.getitem s k
    - (Account.total (Account.taken k) (Psy.stdout l) - Account.total (Account.taken k) out)
    + (Account.total (Account.given k) (Psy.stdout l) - Account.total (Account.given k) out).
Proof.
  intros Hs Hr. unfold Psy.step.
  set (l0 := {| Psy.state := s; Psy.to_add := ∅; Psy.end_ := true;
                Psy.stdout := Psy.print_if _ (Psy.PrintState s) out |}).
  pose proof (for_rules_account fuel d rules l0 k Hr Hs (map_Forall_empty _)) as [A B].
  pose proof (for_rules_Multiset fuel {| Psy.verbose := true; Psy.detect_loops := d |}
                rules l0 Hr Hs (map_Forall_empty _)) as [Ms Mt].
  cbv zeta in A, B.
  destruct (Psy.for_rules _ _ rules l0) as [l1 [|]]; [|done].
  intros [= <-]. simpl in *. rewrite (iadd_exact _ _ k Ms Mt).
  rewrite !total_snoc, getitem_empty in *. simpl in *. lia.
Qed.

Lemma run_loop_account fuel d rules s previous_states n out final k :
  Spec.Multiset s -> Forall Sim.rule_ok rules ->
  let r := Psy.run_loop fuel {| Psy.verbose := true; Psy.detect_loops := d |}
             rules s previous_states n out in
  Psy.ended r = Psy.Returned final
  \/ (exists prev, Psy.ended r = Psy.Raised (Psy.IncreasingSequence prev final)) ->
  Counter.getitem final k
  = Counter.getitem s k
    - (Account.total (Account.taken k) (Psy.printed r) - Account.total (Account.taken k) out)
    + (Account.total (Account.given k) (Psy.printed r) - Account.total (Account.given k) out).
Proof.
  intros Hs Hr. cbv zeta. revert s previous_states n out Hs.
  induction fuel as [|fuel IH]; intros s previous_states n out Hs;
    [by intros [|[? ?]]|].
  simpl.
  destruct (Psy.step fuel _ rules s out) as [l [|]] eqn:E; [|by intros [|[? ?]]].
  pose proof (step_account _ _ _ _ _ _ k Hs Hr E) as A.
  pose proof (positive_Multiset _ (step_state_positive _ _ _ _ _ _ E)) as Hl.
  destruct (if d then _ else _) as [prev|].
  - simpl. intros [|[prev' [= _ <-]]]; done.
  - destruct (Psy.end_ l).
    + simpl. intros [[= <-]|[? ?]]; done.
    + intros H. rewrite (IH _ _ _ _ Hl H), A. lia.
Qed.

(** X7: the lines of [-v] account for the cell.  With [-v], from a cell and
    rules that are multisets, when the run ends (returned, or raised with
    the last cell), the final count of every symbol is its initial count,
    minus what the outgoing sides of the printed rule lines add up to, plus
    what their incoming sides add up to. *)
Theorem verbose_lines_account_for_cell fuel d rules state0 final k :
  Spec.Multiset state0 -> Forall Sim.rule_ok rules ->
  let r := Psy.run fuel rules state0 {| Psy.verbose := true; Psy.detect_loops := d |} in
  Psy.ended r = Psy.Returned final
  \/ (exists prev, Psy.ended r = Psy.Raised (Psy.IncreasingSequence prev final)) ->
  Counter.getitem final k
  = Counter.getitem state0 k
    - Account.total (Account.taken k) (Psy.printed r)
    + Account.total (Account.given k) (Psy.printed r).
Proof.
  intros Hs Hr. cbv zeta. unfold Psy.run. intros H.
  rewrite (run_loop_account fuel d rules state0 _ 0 [] final k Hs Hr H).
  simpl. lia.
Qed.

Lemma verbose_lines_account_for_cell_witness :
  Psy.ended (Psy.run 3 Scenario.rules_B Scenario.state_B Scenario.with_v)
  = Psy.Returned {[ "b"%char := 2 ]}
  /\ Counter.getitem {[ "b"%char := 2 ]} "a"
     = Counter.getitem Scenario.state_B "a"
       - Account.total (Account.taken "a")
           (Psy.printed (Psy.run 3 Scenario.rules_B Scenario.state_B Scenario.with_v))
       + Account.total (Account.given "a")
           (Psy.printed (Psy.run 3 Scenario.rules_B Scenario.state_B Scenario.with_v)).
Proof.
  split; [vm_compute; reflexivity|].
  refine (verbose_lines_account_for_cell 3 false Scenario.rules_B Scenario.state_B
            {[ "b"%char := 2 ]} "a" _ _ _).
  - apply Multiset_read_state.
  - apply rules_of_text_ok.
  - left. vm_compute. reflexivity.
Defined.

End Passes.

(** ** A pass applies as much as it can *)
Section Maximal.
Implicit Types (opts : Psy.Options) (l : Psy.locals) (rules : list Psy.Rule).

(** What does not fit in a cell does not fit in a smaller one. *)
Lemma contains_false_le (a a' b : Counter) :
  (forall k, Counter.getitem a' k <= Counter.getitem a k) ->
  Spec.contains a b = false -> Spec.contains a' b = false.
Proof.
  intros Hle Ha. destruct (Spec.contains a' b) eqn:C; [|done].
  destruct (contains_ge a b) as [_ A2], (contains_ge a' b) as [B1 _].
  rewrite A2 in Ha; [done|]. intros k. specialize (B1 C k). specialize (Hle k). lia.
Qed.

Lemma apply_rule_drained fuel opts outgoing incoming l l' :
  Spec.Multiset outgoing -> Spec.Multiset (Psy.state l) ->
  Psy.apply_rule fuel opts outgoing incoming l = (l', true) ->
  Spec.contains (Psy.state l') outgoing = false
  /\ Spec.Multiset (Psy.state l')
  /\ forall k, Counter.getitem (Psy.state l') k <= Counter.getitem (Psy.state l) k.
Proof.
  intros Ho. revert l.
  induction fuel as [|fuel IH]; intros l Hs; rewrite apply_rule_unfold;
    destruct (Psy.dominates (Psy.state l) outgoing) eqn:D; try done.
  - intros [= <-]. rewrite <- dominates_contains by done.
    split; [done|]. split; [done|]. intros k. lia.
  - intros E. apply IH in E as (C & M & Hle).
    + split; [done|]. split; [done|]. intros k. specialize (Hle k). simpl in Hle.
      destruct (isub_exact _ _ k Hs Ho D) as [Hx _]. rewrite Hx in Hle.
      pose proof (Multiset_getitem outgoing k Ho). lia.
    + simpl. apply positive_Multiset, positive_isub.
  - intros [= <-]. rewrite <- dominates_contains by done.
    split; [done|]. split; [done|]. intros k. lia.
Qed.

Lemma for_rules_drained fuel opts rules l l' :
  Forall Sim.rule_ok rules -> Spec.Multiset (Psy.state l) ->
  Psy.for_rules fuel opts rules l = (l', true) ->
  Forall (fun rule : Psy.Rule => Spec.contains (Psy.state l') rule.1 = false) rules
  /\ Spec.Multiset (Psy.state l')
  /\ forall k, Counter.getitem (Psy.state l') k <= Counter.getitem (Psy.state l) k.
Proof.
  intros Hr. revert l.
  induction Hr as [|[outgoing incoming] rest [Ho Hi] _ IH]; intros l Hs; simpl.
  - intros [= <-]. split; [done|]. split; [done|]. intros k. lia.
  - destruct (Psy.apply_rule fuel opts outgoing incoming l) as [l1 [|]] eqn:A;
      [|done].
    destruct (apply_rule_drained _ _ _ _ _ _ Ho Hs A) as (C1 & M1 & L1).
    intros E. destruct (IH _ M1 E) as (C & M & L).
    split; [|split; [done|]].
    + constructor; [|done]. simpl. by apply (contains_false_le (Psy.state l1)).
    + intros k. specialize (L k). specialize (L1 k). lia.
Qed.

Lemma out_sum_app k (a b : list Psy.Rule) :
  Account.out_sum k (a ++ b) = Account.out_sum k a + Account.out_sum k b.
Proof.
  unfold Account.out_sum. induction a as [|r a IH]; simpl; [lia|]. rewrite IH. lia.
Qed.

Lemma in_sum_app k (a b : list Psy.Rule) :
  Account.in_sum k (a ++ b) = Account.in_sum k a + Account.in_sum k b.
Proof.
  unfold Account.in_sum. induction a as [|r a IH]; simpl; [lia|]. rewrite IH. lia.
Qed.

Lemma out_sum_replicate k (m : nat) (rule : Psy.Rule) :
  Account.out_sum k (replicate m rule) = Z.of_nat m * Counter.getitem rule.1 k.
Proof.
  unfold Account.out_sum. induction m as [|m IH]; [simpl; lia|].
  cbn [replicate foldr]. rewrite IH. lia.
Qed.

Lemma in_sum_replicate k (m : nat) (rule : Psy.Rule) :
  Account.in_sum k (replicate m rule) = Z.of_nat m * Counter.getitem rule.2 k.
Proof.
  unfold Account.in_sum. induction m as [|m IH]; [simpl; lia|].
  cbn [replicate foldr]. rewrite IH. lia.
Qed.

Lemma out_sum_nonneg k (applied : list Psy.Rule) :
  Forall Sim.rule_ok applied -> 0 <= Account.out_sum k applied.
Proof.
  unfold Account.out_sum. induction 1 as [|r a [Ho _] _ IH]; simpl; [lia|].
  pose proof (Multiset_getitem _ k Ho). lia.
Qed.

(** The inner loop applies its rule some number [m] of times: [m] times the
    outgoing side leaves the cell, [m] times the incoming side goes to
    [to_add], and [end] is cleared when [m] is not zero. *)
Lemma apply_rule_applied fuel opts outgoing incoming l l' :
  Spec.Multiset outgoing -> Spec.Multiset incoming ->
  Spec.Multiset (Psy.state l) -> Spec.Multiset (Psy.to_add l) ->
  Psy.apply_rule fuel opts outgoing incoming l = (l', true) ->
  exists m : nat,
    (forall k, Counter.getitem (Psy.state l) k
               = Counter.getitem (Psy.state l') k + Z.of_nat m * Counter.getitem outgoing k)
    /\ (forall k, Counter.getitem (Psy.to_add l') k
                  = Counter.getitem (Psy.to_add l) k + Z.of_nat m * Counter.getitem incoming k)
    /\ Psy.end_ l' = match m with O => Psy.end_ l | S _ => false end.
Proof.
  intros Ho Hi. revert l.
  induction fuel as [|fuel IH]; intros l Hs Ht; rewrite apply_rule_unfold;
    destruct (Psy.dominates (Psy.state l) outgoing) eqn:D; try done;
    try (intros [= <-]; exists 0%nat; repeat split; intros; lia).
  intros E. apply IH in E as (m & A & B & C); simpl in *.
  - exists (S m). split; [|split].
    + intros k. destruct (isub_exact _ _ k Hs Ho D) as [Hx _].
      specialize (A k). lia.
    + intros k. specialize (B k). rewrite (iadd_exact _ _ k Ht Hi) in B. lia.
    + by destruct m.
  - apply positive_Multiset, positive_isub.
  - apply positive_Multiset, positive_iadd.
Qed.

(** A pass applies a list of rules of the rule list: their outgoing sides
    leave the cell, their incoming sides make up [to_add], and [end] stays
    on exactly when the list is empty. *)
Lemma for_rules_applied fuel opts rules l l' :
  Forall Sim.rule_ok rules ->
  Spec.Multiset (Psy.state l) -> Spec.Multiset (Psy.to_add l) ->
  Psy.for_rules fuel opts rules l = (l', true) ->
  exists applied : list Psy.Rule,
    Forall (fun rule => rule ∈ rules) applied
    /\ (forall k, Counter.getitem (Psy.state l) k
                  = Counter.getitem (Psy.state l') k + Account.out_sum k applied)
    /\ (forall k, Counter.getitem (Psy.to_add l') k
                  = Counter.getitem (Psy.to_add l) k + Account.in_sum k applied)
    /\ Psy.end_ l' = match applied with [] => Psy.end_ l | _ => false end.
Proof.
  intros Hr. revert l.
  induction Hr as [|[outgoing incoming] rest [Ho Hi] Hrest IH]; intros l Hs Ht; simpl.
  - intros [= <-]. exists []. repeat split; [done | intros; simpl; lia..].
  - pose proof (for_rules_Multiset fuel opts [(outgoing, incoming)] l) as M.
    simpl in M.
    destruct (Psy.apply_rule fuel opts outgoing incoming l) as [l1 [|]] eqn:A;
      [|done].
    destruct M as [Ms Mt]; [by repeat constructor | done | done |]. simpl in Ms, Mt.
    destruct (apply_rule_applied _ _ _ _ _ _ Ho Hi Hs Ht A) as (m & A1 & A2 & A3).
    intros E. destruct (IH l1 Ms Mt E) as (applied & F & B1 & B2 & B3).
    exists (replicate m (outgoing, incoming) ++ applied). split; [|split; [|split]].
    + apply Forall_app. split.
      * apply Forall_forall. intros r Hin. apply elem_of_replicate in Hin as [-> _].
        by apply elem_of_cons; left.
      * eapply Forall_impl; [exact F|]. intros r Hin. by apply elem_of_cons; right.
    + intros k. rewrite out_sum_app, out_sum_replicate.
      specialize (A1 k). specialize (B1 k). cbn [fst snd] in *. lia.
    + intros k. rewrite in_sum_app, in_sum_replicate.
      specialize (A2 k). specialize (B2 k). cbn [fst snd] in *. lia.
    + rewrite B3, A3. destruct m; simpl; [done|]. by destruct applied.
Qed.

(** X8: the rules applied in a pass form a maximal set, as the docstring
    says.  A completed pass on multisets applies a list of rules taken from
    the rule list, and splits the old cell in two: the outgoing sides of the
    applied rules, and what is left.  What is left contains no rule's
    outgoing side, so no further rule could have been applied; the incoming
    sides of the applied rules are [to_add], the new cell is what is left
    plus [to_add], and [end] stays on exactly when no rule was applied. *)
Theorem pass_is_maximal fuel opts rules s out l :
  Spec.Multiset s -> Forall Sim.rule_ok rules ->
  Psy.step fuel opts rules s out = (l, true) ->
  let left := Spec.subtract (Psy.state l) (Psy.to_add l) in
  exists applied : list Psy.Rule,
    Forall (fun rule => rule ∈ rules) applied
    /\ (forall k, Counter.getitem s k
                  = Counter.getitem left k + Account.out_sum k applied)
    /\ (forall k, Counter.getitem (Psy.to_add l) k = Account.in_sum k applied)
    /\ (Psy.end_ l = true <-> applied = [])
    /\ Spec.Multiset left
    /\ Spec.same (Psy.state l) (Spec.add left (Psy.to_add l))
    /\ (forall k, Counter.getitem left k <= Counter.getitem s k)
    /\ Forall (fun rule : Psy.Rule => Spec.contains left rule.1 = false) rules.
Proof.
  intros Hs Hr. unfold Psy.step.
  set (l0 := {| Psy.state := s; Psy.to_add := ∅; Psy.end_ := true;
                Psy.stdout := Psy.print_if _ (Psy.PrintState s) out |}).
  pose proof (for_rules_Multiset fuel opts rules l0 Hr Hs (map_Forall_empty _))
    as [_ Mt].
  destruct (Psy.for_rules fuel opts rules l0) as [l1 [|]] eqn:E; [|done].
  destruct (for_rules_drained fuel opts rules l0 l1 Hr Hs E) as (C & M & L).
  destruct (for_rules_applied fuel opts rules l0 l1 Hr Hs (map_Forall_empty _) E)
    as (applied & F & A1 & A2 & A3).
  intros [= <-]. cbv zeta. simpl in *.
  assert (Spec.same (Spec.subtract (Counter.iadd (Psy.state l1) (Psy.to_add l1))
                       (Psy.to_add l1)) (Psy.state l1)) as Hleft.
  { intros k. rewrite getitem_subtract, (iadd_exact _ _ k M Mt). lia. }
  exists applied. split; [done|]. split; [|split; [|split; [|split; [|split; [|split]]]]].
  - intros k. rewrite (Hleft k). apply A1.
  - intros k. rewrite (A2 k), getitem_empty. lia.
  - rewrite A3. by destruct applied.
  - apply getitem_Multiset. intros k. rewrite (Hleft k). by apply Multiset_getitem.
  - intros k. rewrite getitem_spec_add, (Hleft k). by apply iadd_exact.
  - intros k. rewrite (Hleft k). apply L.
  - eapply Forall_impl; [exact C|]. intros rule Hc. simpl in *.
    by rewrite (contains_same _ _ _ Hleft).
Qed.

Lemma pass_is_maximal_witness :
  Psy.step 2 Scenario.plain Scenario.rules_A (Psy.read_state "aab") []
  = ({| Psy.state := Psy.read_state "bbb"; Psy.to_add := Psy.read_state "bb";
        Psy.end_ := false; Psy.stdout := [] |}, true)
  /\ exists applied : list Psy.Rule,
       Forall (fun rule => rule ∈ Scenario.rules_A) applied
       /\ (forall k, Counter.getitem (Psy.read_state "aab") k
                     = Counter.getitem
                         (Spec.subtract (Psy.read_state "bbb") (Psy.read_state "bb")) k
                       + Account.out_sum k applied)
       /\ (forall k, Counter.getitem (Psy.read_state "bb") k = Account.in_sum k applied).
Proof.
  split; [vm_compute; reflexivity|].
  destruct (pass_is_maximal 2 Scenario.plain Scenario.rules_A (Psy.read_state "aab") []
    {| Psy.state := Psy.read_state "bbb"; Psy.to_add := Psy.read_state "bb";
       Psy.end_ := false; Psy.stdout := [] |}) as (applied & F & A1 & A2 & _).
  - apply Multiset_read_state.
  - apply rules_of_text_ok.
  - vm_compute. reflexivity.
  - exists applied. split; [exact F|]. split; [exact A1 | exact A2].
Defined.




Lemma run_loop_S fuel opts rules s previous_states n out :
  Psy.run_loop (S fuel) opts rules s previous_states n out
  = (let (l, finished) := Psy.step fuel opts rules s out in
     if finished then
       match (if Psy.detect_loops opts
              then find (fun prev => Psy.dominates (Psy.state l) prev) previous_states
              else None) with
       | Some prev =>
           {| Psy.ended := Psy.Raised (Psy.IncreasingSequence prev (Psy.state l));
              Psy.steps := S n; Psy.printed := Psy.stdout l |}
       | None =>
           if Psy.end_ l then
             {| Psy.ended := Psy.Returned (Psy.state l); Psy.steps := S n;
                Psy.printed := Psy.stdout l |}
           else Psy.run_loop fuel opts rules (Psy.state l)
                  (if Psy.detect_loops opts
                   then previous_states ++ [Counter.copy (Psy.state l)]
                   else previous_states) (S n) (Psy.stdout l)
       end
     else {| Psy.ended := Psy.Unfinished (Psy.state l); Psy.steps := n;
             Psy.printed := Psy.stdout l |}).
Proof. reflexivity. Qed.




End Maximal.

(** ** A rule that feeds itself *)
Section Diverging.
Implicit Types (opts : Psy.Options) (l : Psy.locals) (rules : list Psy.Rule).








End Diverging.

(** ** The loader *)
Section Loader.
Implicit Types (rules : list Psy.Rule) (word : list ascii) (k x : ascii).

Lemma SYMBOLS_cases k :
  k ∈ Psy.SYMBOLS ->
  k = "a"%char \/ k = "b"%char \/ k = "c"%char \/ k = "d"%char \/ k = "e"%char.
Proof.
  unfold Psy.SYMBOLS. simpl. rewrite !elem_of_cons, elem_of_nil. tauto.
Qed.

Lemma upper_SYMBOLS_cases x :
  x ∈ map Psy.upper Psy.SYMBOLS ->
  x = "A"%char \/ x = "B"%char \/ x = "C"%char \/ x = "D"%char \/ x = "E"%char.
Proof.
  unfold Psy.SYMBOLS. simpl. rewrite !elem_of_cons, elem_of_nil. tauto.
Qed.

(** On the letters of a rule, [lower] and [upper] undo each other. *)
Lemma lower_of_upper_symbol x :
  x ∈ map Psy.upper Psy.SYMBOLS ->
  Psy.lower x ∈ Psy.SYMBOLS /\ Psy.upper (Psy.lower x) = x.
Proof.
  intros H. apply upper_SYMBOLS_cases in H.
  destruct H as [-> | [-> | [-> | [-> | ->]]]]; (split; [|reflexivity]);
    unfold Psy.SYMBOLS; simpl; rewrite !elem_of_cons; tauto.
Qed.

Lemma upper_of_symbol k :
  k ∈ Psy.SYMBOLS ->
  Psy.upper k ∈ map Psy.upper Psy.SYMBOLS /\ Psy.lower (Psy.upper k) = k.
Proof.
  intros H. apply SYMBOLS_cases in H.
  destruct H as [-> | [-> | [-> | [-> | ->]]]]; (split; [|reflexivity]);
    unfold Psy.SYMBOLS; simpl; rewrite !elem_of_cons; tauto.
Qed.

Lemma count_occ_lower_upper word k :
  count_occ Ascii.ascii_dec
    (map Psy.lower (filter (fun symbol => symbol ∈ map Psy.upper Psy.SYMBOLS) word)) k
  = if bool_decide (k ∈ Psy.SYMBOLS)
    then count_occ Ascii.ascii_dec word (Psy.upper k)
    else 0%nat.
Proof.
  induction word as [|x word IH]; [by case_bool_decide|].
  rewrite filter_cons.
  destruct (decide (x ∈ map Psy.upper Psy.SYMBOLS)) as [Hx|Hx];
    cbn [map count_occ]; rewrite IH.
  - destruct (lower_of_upper_symbol x Hx) as [Hl Hu].
    case_bool_decide as Hk.
    + destruct (upper_of_symbol k Hk) as [_ Hlk].
      destruct (Ascii.ascii_dec (Psy.lower x) k) as [E|E],
               (Ascii.ascii_dec x (Psy.upper k)) as [E'|E']; try done; congruence.
    + destruct (Ascii.ascii_dec (Psy.lower x) k) as [E|E]; [congruence | done].
  - case_bool_decide as Hk; [|done].
    destruct (upper_of_symbol k Hk) as [Hu _].
    destruct (Ascii.ascii_dec x (Psy.upper k)) as [E|E]; [congruence | done].
Qed.

Lemma positive_empty_iff (c : Counter) :
  Counter.positive c -> (c = ∅ <-> forall k, Counter.getitem c k = 0).
Proof.
  intros Hc. split.
  - intros -> k. apply getitem_empty.
  - intros H. apply positive_ext; [done | apply positive_empty |].
    intros k. by rewrite H, getitem_empty.
Qed.

(** X11: the rule a word stands for.  Its outgoing side counts the
    occurrences of each of a-e in the word, its incoming side counts, under
    the lowercase letter, the occurrences of each of A-E; every other
    character is dropped.  The outgoing side is empty exactly when the word
    has none of a-e. *)
Theorem rule_of_word_counts word k :
  Counter.getitem (Psy.rule_of_word word).1 k
  = (if bool_decide (k ∈ Psy.SYMBOLS)
     then Z.of_nat (count_occ Ascii.ascii_dec word k) else 0)
  /\ Counter.getitem (Psy.rule_of_word word).2 k
     = (if bool_decide (k ∈ Psy.SYMBOLS)
        then Z.of_nat (count_occ Ascii.ascii_dec word (Psy.upper k)) else 0)
  /\ ((Psy.rule_of_word word).1 = ∅ <-> Forall (fun c => c ∉ Psy.SYMBOLS) word).
Proof.
  assert (forall k', Counter.getitem (Psy.rule_of_word word).1 k'
            = (if bool_decide (k' ∈ Psy.SYMBOLS)
               then Z.of_nat (count_occ Ascii.ascii_dec word k') else 0)) as H1.
  { intros k'. unfold Psy.rule_of_word. simpl. rewrite getitem_of_list.
    case_bool_decide as Hk.
    - by rewrite count_occ_filter_in.
    - by rewrite count_occ_filter_out. }
  split; [apply H1|]. split.
  - unfold Psy.rule_of_word. simpl.
    rewrite getitem_of_list, count_occ_lower_upper. by case_bool_decide.
  - rewrite positive_empty_iff by apply positive_of_list.
    rewrite Forall_forall. split.
    + intros H c Hin Hc. specialize (H c). rewrite H1 in H.
      rewrite bool_decide_eq_true_2 in H by done.
      apply list_elem_of_In, (count_occ_In Ascii.ascii_dec) in Hin. lia.
    + intros H k'. rewrite H1. case_bool_decide as Hk; [|done].
      rewrite (proj1 (count_occ_not_In Ascii.ascii_dec word k')); [done|].
      intros Hin. apply list_elem_of_In in Hin. by apply (H k').
Qed.

Lemma check_rules_true rules :
  Psy.check_rules rules = true -> forall rule, rule ∈ rules -> rule.1 <> ∅.
Proof.
  unfold Psy.check_rules. rewrite forallb_forall. intros H rule Hin He.
  apply list_elem_of_In in Hin. specialize (H rule Hin).
  unfold Counter.truth in H. rewrite He in H.
  by rewrite bool_decide_eq_true_2 in H.
Qed.

Lemma check_rules_false_inv rules :
  Psy.check_rules rules = false -> exists rule, rule ∈ rules /\ rule.1 = ∅.
Proof.
  unfold Psy.check_rules. induction rules as [|rule rest IH]; simpl; [done|].
  destruct (Counter.truth rule.1) eqn:T; simpl.
  - intros H. destruct (IH H) as (r & Hin & He). exists r. split; [|done].
    by apply elem_of_cons; right.
  - intros _. exists rule. split; [by apply elem_of_cons; left|].
    unfold Counter.truth in T. apply negb_false_iff, bool_decide_eq_true in T. done.
Qed.

(** X12: [InvalidRule] is raised for a rule without outgoing symbols and
    for nothing else.  Once the files are read, [main] raises it exactly
    when some rule has an empty outgoing side; when no rule has, [main]
    gives what [run] gives on the cell read from stdin (and prints the cell
    returned). *)
Theorem invalid_rule_iff fuel fs input_rules input_state opts rules :
  Psy.load_rules fs input_rules = inr rules ->
  (Psy.ended (Psy.main fuel fs input_rules input_state opts) = Psy.Raised Psy.InvalidRule
   <-> exists rule, rule ∈ rules /\ rule.1 = ∅)
  /\ ((forall rule, rule ∈ rules -> rule.1 <> ∅) ->
      Psy.ended (Psy.main fuel fs input_rules input_state opts)
      = Psy.ended (Psy.run fuel rules (Psy.read_state input_state) opts)
      /\ Psy.steps (Psy.main fuel fs input_rules input_state opts)
         = Psy.steps (Psy.run fuel rules (Psy.read_state input_state) opts)).
Proof.
  intros Hload. unfold Psy.main. rewrite Hload.
  destruct (Psy.check_rules rules) eqn:C.
  - pose proof (check_rules_true rules C) as Hne.
    assert (forall r : Psy.result,
              Psy.ended (match Psy.ended r with
                         | Psy.Returned final =>
                             {| Psy.ended := Psy.Returned final; Psy.steps := Psy.steps r;
                                Psy.printed := Psy.printed r ++ [Psy.PrintState final] |}
                         | _ => r
                         end) = Psy.ended r
              /\ Psy.steps (match Psy.ended r with
                            | Psy.Returned final =>
                                {| Psy.ended := Psy.Returned final; Psy.steps := Psy.steps r;
                                   Psy.printed := Psy.printed r ++ [Psy.PrintState final] |}
                            | _ => r
                            end) = Psy.steps r) as Hm.
    { intros r. by destruct (Psy.ended r) eqn:E. }
    destruct (Hm (Psy.run fuel rules (Psy.read_state input_state) opts)) as [-> ->].
    split; [|done]. split.
    + intros H. apply run_loop_raised in H as (_ & prev & st & [=] & _).
    + intros (rule & Hin & He). by destruct (Hne rule Hin).
  - split.
    + split; [intros _; by apply check_rules_false_inv | done].
    + intros Hne. destruct (check_rules_false_inv rules C) as (rule & Hin & He).
      by destruct (Hne rule Hin).
Qed.

Lemma invalid_rule_iff_witness :
  Psy.load_rules (Scenario.program "aaB") ["program"%string] = inr Scenario.rules_B
  /\ (Psy.ended (Psy.main 3 (Scenario.program "aaB") ["program"%string] "aaaa"
                   Scenario.plain) = Psy.Raised Psy.InvalidRule
      <-> exists rule, rule ∈ Scenario.rules_B /\ rule.1 = ∅).
Proof.
  split; [vm_compute; reflexivity|].
  refine (proj1 (invalid_rule_iff 3 (Scenario.program "aaB") ["program"%string]
                   "aaaa" Scenario.plain Scenario.rules_B _)).
  vm_compute. reflexivity.
Defined.

Lemma load_rules_missing fs pre fname post :
  Forall (fun name => is_Some (fs !! name)) pre -> fs !! fname = None ->
  Psy.load_rules fs (pre ++ fname :: post) = inl (Psy.OSError fname).
Proof.
  induction 1 as [|name pre [text Ht] _ IH]; intros Hf; simpl.
  - by rewrite Hf.
  - by rewrite Ht, IH.
Qed.

(** X13: a rule file that cannot be opened stops everything.  When the
    first file of the command line that does not exist is [fname], [main]
    raises the error of [open] for [fname], whatever the files before it
    hold (rules without outgoing symbols included), with nothing run and
    nothing printed; the script prints the error and exits with code 1. *)
Theorem missing_file_raises_first fuel fs pre fname post input_state opts :
  Forall (fun name => is_Some (fs !! name)) pre -> fs !! fname = None ->
  Psy.main fuel fs (pre ++ fname :: post) input_state opts
  = {| Psy.ended := Psy.Raised (Psy.OSError fname); Psy.steps := 0; Psy.printed := [] |}
  /\ Psy.script fuel fs (pre ++ fname :: post) input_state opts
     = ([Psy.PrintError (Psy.OSError fname)], Some 1).
Proof.
  intros Hpre Hf. unfold Psy.script, Psy.main.
  by rewrite (load_rules_missing fs pre fname post Hpre Hf).
Qed.

Lemma missing_file_raises_first_witness :
  Scenario.program "ABC" !! "other"%string = None
  /\ Psy.script 5 (Scenario.program "ABC") ["program"%string; "other"%string] "a"
       Scenario.plain
     = ([Psy.PrintError (Psy.OSError "other")], Some 1).
Proof.
  split; [vm_compute; reflexivity|].
  refine (proj2 (missing_file_raises_first 5 (Scenario.program "ABC")
                   ["program"%string] "other" [] "a" Scenario.plain _ _)).
  - constructor; [|constructor]. exists "ABC"%string. vm_compute. reflexivity.
  - vm_compute. reflexivity.
Defined.

End Loader.

(** ** Lines and words *)
Section Text.
Implicit Types (line word text : list ascii) (c : ascii).

Lemma list_ascii_of_string_app (s1 s2 : string) :
  list_ascii_of_string (s1 ++ s2) = list_ascii_of_string s1 ++ list_ascii_of_string s2.
Proof. induction s1 as [|c s1 IH]; simpl; [done|]. by rewrite IH. Qed.

Lemma readlines_line line rest :
  Forall (fun c => c <> "010"%char) line ->
  Psy.readlines (line ++ "010"%char :: rest) = (line ++ ["010"%char]) :: Psy.readlines rest.
Proof.
  induction 1 as [|c line Hc _ IH]; [done|].
  change ((c :: line) ++ "010"%char :: rest) with (c :: (line ++ "010"%char :: rest)).
  cbn [Psy.readlines]. rewrite IH.
  destruct (Ascii.eqb_spec c "010"); [done|]. done.
Qed.

Lemma readlines_last line :
  Forall (fun c => c <> "010"%char) line -> line <> [] ->
  Psy.readlines line = [line].
Proof.
  induction 1 as [|c line Hc Hl IH]; [done|]. intros _. cbn [Psy.readlines].
  destruct (Ascii.eqb_spec c "010"); [done|].
  destruct line as [|c' line]; [done|]. by rewrite IH.
Qed.

Lemma split_from_spaces word line :
  Forall (fun c => Psy.isspace c = true) line ->
  Psy.split_from word line = match word with [] => [] | _ => [rev word] end.
Proof.
  intros H. revert word. induction H as [|c line Hc _ IH]; intros word; [done|].
  cbn [Psy.split_from]. rewrite Hc, !IH. by destruct word.
Qed.

Lemma split_from_concat word line :
  concat (Psy.split_from word line)
  = rev word ++ filter (fun c => Psy.isspace c = false) line.
Proof.
  revert word. induction line as [|c line IH]; intros word; cbn [Psy.split_from].
  - destruct word; simpl; [done|]. by rewrite !app_nil_r.
  - rewrite filter_cons. destruct (Psy.isspace c) eqn:Hc.
    + rewrite decide_False by done.
      destruct word; [apply IH|]. cbn [concat]. by rewrite IH.
    + rewrite decide_True by done. rewrite IH. simpl. by rewrite <- app_assoc.
Qed.

Lemma split_from_words word line :
  Forall (fun c => Psy.isspace c = false) word ->
  Forall (fun w => w <> [] /\ Forall (fun c => Psy.isspace c = false) w)
    (Psy.split_from word line).
Proof.
  revert word. induction line as [|c line IH]; intros word Hw; cbn [Psy.split_from].
  - destruct word as [|c' word]; [done|]. constructor; [|done]. split.
    + intros H. apply (f_equal length) in H. rewrite length_rev in H. done.
    + by apply Forall_rev.
  - destruct (Psy.isspace c) eqn:Hc.
    + destruct word as [|c' word]; [by apply IH|]. constructor; [|by apply IH].
      split.
      * intros H. apply (f_equal length) in H. rewrite length_rev in H. done.
      * by apply Forall_rev.
    + apply IH. by constructor.
Qed.

(** X14: [split] loses nothing but spaces.  The words of a line are not
    empty and hold no space character, and put end to end they are the line
    with its space characters taken out: every other character is kept, in
    its place. *)
Theorem split_keeps_all_but_spaces line :
  concat (Psy.split line) = filter (fun c => Psy.isspace c = false) line
  /\ Forall (fun w => w <> [] /\ Forall (fun c => Psy.isspace c = false) w)
       (Psy.split line).
Proof.
  unfold Psy.split. split.
  - by rewrite split_from_concat.
  - by apply split_from_words.
Qed.

Lemma readlines_nil text : Psy.readlines text = [] -> text = [].
Proof.
  destruct text as [|c rest]; [done|]. cbn [Psy.readlines].
  destruct (Ascii.eqb c "010"); [done|]. by destruct (Psy.readlines rest).
Qed.

(** The lines of a text that ends with a newline, followed by more text,
    are its lines and then the lines of what follows. *)
Lemma readlines_app text rest :
  (forall c, last text = Some c -> c = "010"%char) ->
  Psy.readlines (text ++ rest) = Psy.readlines text ++ Psy.readlines rest.
Proof.
  induction text as [|c text IH]; intros Hlast; [done|].
  change ((c :: text) ++ rest) with (c :: (text ++ rest)). cbn [Psy.readlines].
  destruct text as [|c' text].
  - rewrite (Hlast c eq_refl). done.
  - rewrite IH by (intros c0 H0; apply Hlast; exact H0).
    destruct (Ascii.eqb c "010"); [done|].
    destruct (Psy.readlines (c' :: text)) as [|line lines] eqn:E; [|done].
    by apply readlines_nil in E.
Qed.

Lemma rules_of_text_app (before rest : string) :
  (forall c, last (list_ascii_of_string before) = Some c -> c = "010"%char) ->
  Psy.rules_of_text (before ++ rest)
  = Psy.rules_of_text before ++ Psy.rules_of_text rest.
Proof.
  intros H. unfold Psy.rules_of_text.
  by rewrite list_ascii_of_string_app, readlines_app, List.filter_app, flat_map_app.
Qed.

Lemma rules_of_comment_line (line rest : string) :
  Forall (fun c => c <> "010"%char) (list_ascii_of_string line) ->
  Psy.rules_of_text (String "#" (line ++ String "010" rest)) = Psy.rules_of_text rest
  /\ Psy.rules_of_text (String "#" line) = [].
Proof.
  intros Hl. unfold Psy.rules_of_text. split.
  - cbn [list_ascii_of_string]. rewrite list_ascii_of_string_app.
    cbn [list_ascii_of_string]. rewrite app_comm_cons.
    rewrite (readlines_line ("#"%char :: list_ascii_of_string line)).
    + done.
    + constructor; [done | exact Hl].
  - cbn [list_ascii_of_string].
    rewrite (readlines_last ("#"%char :: list_ascii_of_string line));
      [done | by constructor | done].
Qed.

Lemma rules_of_blank_line (line rest : string) :
  Forall (fun c => c <> "010"%char) (list_ascii_of_string line) ->
  Forall (fun c => Psy.isspace c = true) (list_ascii_of_string line) ->
  Psy.rules_of_text (line ++ String "010" rest) = Psy.rules_of_text rest.
Proof.
  intros Hl Hs. unfold Psy.rules_of_text.
  rewrite list_ascii_of_string_app. cbn [list_ascii_of_string].
  rewrite (readlines_line _ _ Hl). cbn [List.filter].
  destruct (Psy.is_rule_line _); [|done]. cbn [flat_map].
  unfold Psy.split. rewrite split_from_spaces; [done|].
  apply Forall_app. split; [done|]. by repeat constructor.
Qed.

(** X15: lines that give no rule, wherever they stand.  In a rule file, a
    line that starts with [#], or that holds only space characters (an empty
    line among them), adds no rule, whatever the lines before it and after
    it: the rules of the file are those of the lines before followed by
    those of the lines after.  A [#] line is also skipped when it is the
    last line and has no newline.  ([before] is any text made of whole
    lines: empty, or ending with a newline.) *)
Theorem comment_and_blank_lines_give_no_rule (before line rest : string) :
  (forall c, last (list_ascii_of_string before) = Some c -> c = "010"%char) ->
  Forall (fun c => c <> "010"%char) (list_ascii_of_string line) ->
  Psy.rules_of_text (before ++ String "#" (line ++ String "010" rest))
  = Psy.rules_of_text before ++ Psy.rules_of_text rest
  /\ Psy.rules_of_text (before ++ String "#" line) = Psy.rules_of_text before
  /\ (Forall (fun c => Psy.isspace c = true) (list_ascii_of_string line) ->
      Psy.rules_of_text (before ++ (line ++ String "010" rest))
      = Psy.rules_of_text before ++ Psy.rules_of_text rest)
  /\ Psy.rules_of_text (before ++ rest)
     = Psy.rules_of_text before ++ Psy.rules_of_text rest.
Proof.
  intros Hb Hl. destruct (rules_of_comment_line line rest Hl) as [C1 C2].
  rewrite !(rules_of_text_app before) by done.
  split; [by rewrite C1|]. split; [by rewrite C2, app_nil_r|].
  split; [|done]. intros Hs. by rewrite (rules_of_blank_line line rest Hl Hs).
Qed.

Lemma comment_and_blank_lines_give_no_rule_witness :
  Forall (fun c => c <> "010"%char) (list_ascii_of_string " aB is a comment")
  /\ Psy.rules_of_text
       (("aB" ++ String "010" "") ++ String "#" (" aB is a comment" ++ String "010" "aaB"))
     = Psy.rules_of_text ("aB" ++ String "010" "") ++ Psy.rules_of_text "aaB".
Proof.
  split; [repeat constructor; discriminate|].
  refine (proj1 (comment_and_blank_lines_give_no_rule ("aB" ++ String "010" "")
                   " aB is a comment" "aaB" _ _)).
  - intros c H. vm_compute in H. congruence.
  - repeat constructor; discriminate.
Defined.

End Text.

(** ** The cell as text *)
Section Cell.
Implicit Types (l : list ascii) (c : Counter) (k : ascii).

Lemma of_list_app l1 l2 :
  Counter.of_list (l1 ++ l2) = Counter.add (Counter.of_list l1) (Counter.of_list l2).
Proof.
  apply positive_ext; [apply positive_of_list | apply positive_add |].
  intros k. rewrite getitem_add, !getitem_of_list, count_occ_app. lia.
Qed.

Lemma of_list_Permutation l1 l2 :
  l1 ≡ₚ l2 -> Counter.of_list l1 = Counter.of_list l2.
Proof.
  intros H. apply positive_ext; [apply positive_of_list | apply positive_of_list |].
  intros k. rewrite !getitem_of_list.
  by rewrite (proj1 (Permutation_count_occ Ascii.ascii_dec l1 l2) H k).
Qed.

(** X16: the cell of a text in two parts is the sum of the cells of the
    parts, so the order of the parts does not matter. *)
Theorem read_state_app (input1 input2 : string) :
  Psy.read_state (input1 ++ input2)
  = Counter.add (Psy.read_state input1) (Psy.read_state input2)
  /\ Psy.read_state (input1 ++ input2) = Psy.read_state (input2 ++ input1).
Proof.
  assert (forall s1 s2 : string, Psy.read_state (s1 ++ s2)
            = Counter.add (Psy.read_state s1) (Psy.read_state s2)) as H.
  { intros s1 s2. unfold Psy.read_state.
    by rewrite list_ascii_of_string_app, filter_app, of_list_app. }
  split; [apply H|]. rewrite !H.
  apply positive_ext; [apply positive_add | apply positive_add |].
  intros k. rewrite !getitem_add. lia.
Qed.

(** X17: only the counts matter.  Two inputs that are rearrangements of
    each other give the same cell, and two words that are rearrangements of
    each other stand for the same rule. *)
Theorem rearranged_text_reads_the_same (l1 l2 : list ascii) :
  l1 ≡ₚ l2 ->
  Psy.read_state (string_of_list_ascii l1) = Psy.read_state (string_of_list_ascii l2)
  /\ Psy.rule_of_word l1 = Psy.rule_of_word l2.
Proof.
  intros H. split.
  - unfold Psy.read_state. rewrite !list_ascii_of_string_of_list_ascii.
    apply of_list_Permutation. by apply filter_Permutation.
  - unfold Psy.rule_of_word. f_equal; apply of_list_Permutation.
    + by apply filter_Permutation.
    + apply Permutation_map. by apply filter_Permutation.
Qed.

Lemma rearranged_text_reads_the_same_witness :
  list_ascii_of_string "aBa" ≡ₚ list_ascii_of_string "aaB"
  /\ Psy.rule_of_word (list_ascii_of_string "aBa")
     = Psy.rule_of_word (list_ascii_of_string "aaB").
Proof.
  assert (list_ascii_of_string "aBa" ≡ₚ list_ascii_of_string "aaB") as H.
  { simpl. apply perm_skip. apply perm_swap. }
  split; [exact H|].
  exact (proj2 (rearranged_text_reads_the_same _ _ H)).
Defined.

Lemma count_occ_replicate (n : nat) (i k : ascii) :
  count_occ Ascii.ascii_dec (replicate n i) k = if decide (i = k) then n else 0%nat.
Proof.
  induction n as [|n IH]; simpl; [by case_decide|].
  rewrite IH. destruct (Ascii.ascii_dec i k), (decide (i = k)); done.
Qed.

Lemma count_occ_elements_list (items : list (ascii * Z)) k :
  NoDup items.*1 ->
  count_occ Ascii.ascii_dec
    (flat_map (fun kv => replicate (Z.to_nat kv.2) kv.1) items) k
  = Z.to_nat (default 0 ((list_to_map items : Counter) !! k)).
Proof.
  induction items as [|[i x] items IH]; intros Hnd; simpl.
  - by rewrite lookup_empty.
  - apply NoDup_cons in Hnd as [Hi Hnd].
    rewrite count_occ_app, count_occ_replicate, IH by done.
    destruct (decide (i = k)) as [->|Hne].
    + rewrite lookup_insert_eq.
      rewrite (not_elem_of_list_to_map_1 (M:=gmap ascii) items k Hi). simpl. lia.
    + by rewrite lookup_insert_ne.
Qed.

(** Each key comes out of [elements] as many times as its count says. *)
Lemma count_occ_elements c k :
  count_occ Ascii.ascii_dec (Counter.elements c) k = Z.to_nat (Counter.getitem c k).
Proof.
  unfold Counter.elements, Counter.getitem.
  rewrite count_occ_elements_list by apply NoDup_fst_map_to_list.
  by rewrite list_to_map_to_list.
Qed.

Lemma read_state_of_elements c l :
  Counter.positive c -> (forall k, k ∈ dom c -> k ∈ Psy.SYMBOLS) ->
  l ≡ₚ Counter.elements c -> Psy.read_state (string_of_list_ascii l) = c.
Proof.
  intros Hc Hdom Hl. apply positive_ext; [apply positive_of_list | done |].
  intros k. unfold Psy.read_state.
  rewrite getitem_of_list, list_ascii_of_string_of_list_ascii.
  destruct (decide (k ∈ Psy.SYMBOLS)) as [Hk|Hk].
  - rewrite count_occ_filter_in by done.
    rewrite (proj1 (Permutation_count_occ Ascii.ascii_dec _ _) Hl k).
    rewrite count_occ_elements.
    pose proof (Multiset_getitem c k (positive_Multiset c Hc)). lia.
  - rewrite count_occ_filter_out by done.
    rewrite getitem_0_outside; [done|]. intros Hin. by apply Hk, Hdom.
Qed.

(** X18: the output can be read back.  For a Counter without zero or
    negative entries whose symbols are among a-e, reading its printed form
    as an initial cell gives the Counter again, whatever the order in which
    the symbols are printed. *)
Theorem printed_cell_reads_back c :
  Counter.positive c -> (forall k, k ∈ dom c -> k ∈ Psy.SYMBOLS) ->
  Psy.read_state (Counter.repr c) = c
  /\ forall l, l ≡ₚ Counter.elements c -> Psy.read_state (string_of_list_ascii l) = c.
Proof.
  intros Hc Hdom. split.
  - by apply read_state_of_elements.
  - intros l. by apply read_state_of_elements.
Qed.

Lemma printed_cell_reads_back_witness :
  Counter.positive (Psy.read_state "ebb")
  /\ Psy.read_state (Counter.repr (Psy.read_state "ebb")) = Psy.read_state "ebb".
Proof.
  split; [apply positive_of_list|].
  refine (proj1 (printed_cell_reads_back (Psy.read_state "ebb") _ _)).
  - apply positive_of_list.
  - intros k Hk. apply elem_of_dom in Hk as [n Hn].
    destruct (decide (k ∈ Psy.SYMBOLS)) as [Hin|Hout]; [exact Hin|].
    exfalso.
    pose proof (positive_of_list
      (filter (fun symbol => symbol ∈ Psy.SYMBOLS) (list_ascii_of_string "ebb")) k n Hn)
      as Hpos.
    assert (Counter.getitem (Psy.read_state "ebb") k = n) as G
      by (unfold Counter.getitem; by rewrite Hn).
    unfold Psy.read_state in G.
    rewrite getitem_of_list, count_occ_filter_out in G by exact Hout.
    simpl in *. lia.
Defined.

End Cell.

(** ** No symbol out of nowhere *)
Section Support.
Implicit Types (opts : Psy.Options) (l : Psy.locals) (rules : list Psy.Rule).
Variable P : ascii -> Prop.

Lemma apply_rule_support fuel opts outgoing incoming l :
  Spec.Multiset outgoing ->
  (forall k, 0 < Counter.getitem incoming k -> P k) ->
  (forall k, 0 < Counter.getitem (Psy.state l) k -> P k) ->
  (forall k, 0 < Counter.getitem (Psy.to_add l) k -> P k) ->
  let l' := (Psy.apply_rule fuel opts outgoing incoming l).1 in
  (forall k, 0 < Counter.getitem (Psy.state l') k -> P k)
  /\ (forall k, 0 < Counter.getitem (Psy.to_add l') k -> P k).
Proof.
  intros Ho Hi. revert l.
  induction fuel as [|fuel IH]; intros l Hs Ht; cbv zeta; rewrite apply_rule_unfold;
    destruct (Psy.dominates (Psy.state l) outgoing); try (by simpl).
  apply IH; simpl; intros k.
  - rewrite getitem_isub. intros H. apply Hs.
    pose proof (Multiset_getitem outgoing k Ho). lia.
  - rewrite getitem_iadd. intros H.
    destruct (decide (0 < Counter.getitem (Psy.to_add l) k)); [by apply Ht|].
    apply Hi. lia.
Qed.

Lemma for_rules_support fuel opts rules l :
  Forall (fun rule : Psy.Rule => Spec.Multiset rule.1
            /\ forall k, 0 < Counter.getitem rule.2 k -> P k) rules ->
  (forall k, 0 < Counter.getitem (Psy.state l) k -> P k) ->
  (forall k, 0 < Counter.getitem (Psy.to_add l) k -> P k) ->
  let l' := (Psy.for_rules fuel opts rules l).1 in
  (forall k, 0 < Counter.getitem (Psy.state l') k -> P k)
  /\ (forall k, 0 < Counter.getitem (Psy.to_add l') k -> P k).
Proof.
  intros Hr. revert l.
  induction Hr as [|[outgoing incoming] rest [Ho Hi] _ IH]; intros l Hs Ht; cbv zeta;
    simpl; [done|].
  pose proof (apply_rule_support fuel opts outgoing incoming l Ho Hi Hs Ht) as [A B].
  cbv zeta in A, B.
  destruct (Psy.apply_rule fuel opts outgoing incoming l) as [l1 [|]]; simpl in *;
    [by apply IH | done].
Qed.

Lemma step_support fuel opts rules s out :
  Forall (fun rule : Psy.Rule => Spec.Multiset rule.1
            /\ forall k, 0 < Counter.getitem rule.2 k -> P k) rules ->
  (forall k, 0 < Counter.getitem s k -> P k) ->
  forall k, 0 < Counter.getitem (Psy.state (Psy.step fuel opts rules s out).1) k -> P k.
Proof.
  intros Hr Hs. unfold Psy.step.
  set (l0 := {| Psy.state := s; Psy.to_add := ∅; Psy.end_ := true;
                Psy.stdout := Psy.print_if _ (Psy.PrintState s) out |}).
  destruct (for_rules_support fuel opts rules l0 Hr Hs) as [A B].
  { intros k. simpl. rewrite getitem_empty. lia. }
  cbv zeta in A, B.
  destruct (Psy.for_rules fuel opts rules l0) as [l1 [|]]; simpl in *; [|done].
  intros k. rewrite getitem_iadd. intros H.
  destruct (decide (0 < Counter.getitem (Psy.state l1) k)); [by apply A|].
  apply B. lia.
Qed.

Lemma run_loop_support fuel opts rules s previous_states n out final :
  Forall (fun rule : Psy.Rule => Spec.Multiset rule.1
            /\ forall k, 0 < Counter.getitem rule.2 k -> P k) rules ->
  (forall k, 0 < Counter.getitem s k -> P k) ->
  let r := Psy.run_loop fuel opts rules s previous_states n out in
  Psy.ended r = Psy.Returned final \/ Psy.ended r = Psy.Unfinished final
  \/ (exists prev, Psy.ended r = Psy.Raised (Psy.IncreasingSequence prev final)) ->
  forall k, 0 < Counter.getitem final k -> P k.
Proof.
  intros Hr. cbv zeta. revert s previous_states n out.
  induction fuel as [|fuel IH]; intros s previous_states n out Hs.
  - simpl. by intros [|[[= <-]|[? ?]]].
  - rewrite run_loop_S.
    pose proof (step_support fuel opts rules s out Hr Hs) as A.
    destruct (Psy.step fuel opts rules s out) as [l [|]]; simpl in A.
    + destruct (if Psy.detect_loops opts then _ else _) as [prev|].
      * simpl. by intros [|[|[? [= _ <-]]]].
      * destruct (Psy.end_ l); [simpl; by intros [[= <-]|[|[? ?]]]|]. by apply IH.
    + simpl. by intros [|[[= <-]|[? ?]]].
Qed.

End Support.

Section EndToEnd.

(** X19: a run makes no symbol of its own.  With rules made of multisets,
    a symbol that is in the cell when the run ends (returned, raised, or
    the fuel spent) was in the initial cell or is on the incoming side of
    some rule. *)
Theorem no_symbol_out_of_nowhere fuel rules state0 opts final k :
  Forall Sim.rule_ok rules ->
  let r := Psy.run fuel rules state0 opts in
  Psy.ended r = Psy.Returned final \/ Psy.ended r = Psy.Unfinished final
  \/ (exists prev, Psy.ended r = Psy.Raised (Psy.IncreasingSequence prev final)) ->
  0 < Counter.getitem final k ->
  0 < Counter.getitem state0 k
  \/ Exists (fun rule : Psy.Rule => 0 < Counter.getitem rule.2 k) rules.
Proof.
  intros Hr. cbv zeta. unfold Psy.run. intros H.
  eapply (run_loop_support
            (fun k => 0 < Counter.getitem state0 k
                      \/ Exists (fun rule : Psy.Rule => 0 < Counter.getitem rule.2 k) rules)
            fuel opts rules state0); [| by left | exact H].
  rewrite Forall_forall in *. intros rule Hin. destruct (Hr rule Hin) as [Ho _].
  split; [done|]. intros k' Hk. right. apply Exists_exists. by exists rule.
Qed.

Lemma no_symbol_out_of_nowhere_witness :
  Psy.ended (Psy.run 3 Scenario.rules_B Scenario.state_B Scenario.plain)
  = Psy.Returned {[ "b"%char := 2 ]}
  /\ (0 < Counter.getitem Scenario.state_B "b"
      \/ Exists (fun rule : Psy.Rule => 0 < Counter.getitem rule.2 "b") Scenario.rules_B).
Proof.
  split; [vm_compute; reflexivity|].
  refine (no_symbol_out_of_nowhere 3 Scenario.rules_B Scenario.state_B Scenario.plain
            {[ "b"%char := 2 ]} "b" _ _ _).
  - apply rules_of_text_ok.
  - left. vm_compute. reflexivity.
  - vm_compute. reflexivity.
Defined.

Lemma rule_of_word_incoming_symbol word k :
  0 < Counter.getitem (Psy.rule_of_word word).2 k -> k ∈ Psy.SYMBOLS.
Proof.
  unfold Psy.rule_of_word. simpl. rewrite getitem_of_list, count_occ_lower_upper.
  case_bool_decide; [done | lia].
Qed.

Lemma read_state_symbol input k :
  0 < Counter.getitem (Psy.read_state input) k -> k ∈ Psy.SYMBOLS.
Proof.
  unfold Psy.read_state. rewrite getitem_of_list.
  destruct (decide (k ∈ Psy.SYMBOLS)) as [Hk|Hk]; [done|].
  rewrite count_occ_filter_out by done. lia.
Qed.

Lemma load_rules_incoming fs input_rules rules :
  Psy.load_rules fs input_rules = inr rules ->
  Forall (fun rule : Psy.Rule => Spec.Multiset rule.1
            /\ forall k, 0 < Counter.getitem rule.2 k -> k ∈ Psy.SYMBOLS) rules.
Proof.
  revert rules. induction input_rules as [|fname rest IH]; intros rules E;
    simpl in E.
  - by simplify_eq.
  - destruct (fs !! fname) as [text|]; [|done].
    destruct (Psy.load_rules fs rest) as [e|rules']; [done|]. simplify_eq.
    apply Forall_app. split; [|by apply IH].
    unfold Psy.rules_of_text. rewrite Forall_forall. intros rule Hin.
    apply list_elem_of_In, in_flat_map in Hin as (line & _ & Hin).
    apply in_map_iff in Hin as (word & <- & _). split.
    + apply positive_Multiset, positive_of_list.
    + apply rule_of_word_incoming_symbol.
Qed.

(** X20: what the program prints can be given back to it.  When [main]
    returns a cell, that cell has only the symbols a-e, each with a count
    above zero, and reading its printed form as a new input gives the same
    cell. *)
Theorem output_is_valid_input fuel fs input_rules input_state opts final :
  Psy.ended (Psy.main fuel fs input_rules input_state opts) = Psy.Returned final ->
  Counter.positive final
  /\ (forall k, k ∈ dom final -> k ∈ Psy.SYMBOLS)
  /\ Psy.read_state (Counter.repr final) = final.
Proof.
  unfold Psy.main.
  destruct (Psy.load_rules fs input_rules) as [e|rules] eqn:Hload; [done|].
  destruct (Psy.check_rules rules); [|done].
  intros H.
  assert (Psy.ended (Psy.run fuel rules (Psy.read_state input_state) opts)
          = Psy.Returned final) as Hrun.
  { destruct (Psy.ended (Psy.run fuel rules (Psy.read_state input_state) opts))
      eqn:E; simpl in H; rewrite ?E in H; congruence. }
  clear H. unfold Psy.run in Hrun.
  destruct (run_loop_returned _ _ _ _ _ _ _ _ (Multiset_read_state input_state) Hrun)
    as [Hpos _].
  assert (forall k, k ∈ dom final -> k ∈ Psy.SYMBOLS) as Hdom.
  { intros k Hk. apply elem_of_dom in Hk as [m Hm].
    eapply (run_loop_support (fun k => k ∈ Psy.SYMBOLS) fuel opts rules
              (Psy.read_state input_state)).
    - by apply (load_rules_incoming fs input_rules).
    - apply read_state_symbol.
    - left. exact Hrun.
    - unfold Counter.getitem. rewrite Hm. exact (Hpos k m Hm). }
  split; [done|]. split; [done|]. by apply read_state_of_elements.
Qed.

Lemma output_is_valid_input_witness :
  Psy.ended (Psy.main 3 (Scenario.program "aaB") ["program"%string] "aaaa" Scenario.plain)
  = Psy.Returned {[ "b"%char := 2 ]}
  /\ Psy.read_state (Counter.repr {[ "b"%char := 2 ]}) = {[ "b"%char := 2 ]}.
Proof.
  split; [vm_compute; reflexivity|].
  refine (proj2 (proj2 (output_is_valid_input 3 (Scenario.program "aaB")
            ["program"%string] "aaaa" Scenario.plain {[ "b"%char := 2 ]} _))).
  vm_compute. reflexivity.
Defined.

End EndToEnd.
